(** * SEO analyzer backend: crawl, meta tags, keyword density, readability

    A shallow embedding of [services/enhancedAnalyzer.js] (class
    [EnhancedAnalyzer]), of [utils/readability.js] and of the helpers of
    [controllers/analyzeController.js].

    Conventions of the embedding:
    - JavaScript strings are [string]s (sequences of 8-bit characters); the
      character classes and case mappings used by the code are interpreted
      on the ASCII range, where they are those of JavaScript.  The
      statements on case folding and on counts of characters are stated for
      texts in that range ([isAscii]).
    - JavaScript numbers are given by their exact value in [Q]; counts and
      lengths are [nat], far below 2^53 and exact as numbers.  The keyword
      densities and the Flesch-Kincaid grade are computed as the code
      computes them, every operation rounded to the nearest double
      ([Js.double]).  The readability score of the technical analysis and
      the average word count are computed exactly: with counts far below
      2^52, what is stated of them holds of the doubles of the code as
      well.
    - The network and the HTML parser are collaborators: a fetched document
      is given by what the selectors of the code return on it, and the web
      is a function of the request number and the URL, so that the same URL
      may answer differently on two requests.
    - The [while] loop of the crawler is iterated by a step function under a
      bound on the number of iterations; termination is proved apart.
    - A computation that may throw returns an [Outcome]. *)

From Stdlib Require Import Ascii QArith Qround Qpower Qabs DecimalString Sorted Lqa.
From stdpp Require Import gmap strings list.

Local Open Scope string_scope.
Local Open Scope nat_scope.
Local Open Scope list_scope.

(** ** JavaScript string primitives *)

Module Js.

Definition chars (s : string) : list ascii := String.list_ascii_of_string s.
Definition str (l : list ascii) : string := String.string_of_list_ascii l.

(** [s.startsWith(p)] *)
Definition startsWith (s p : string) : bool := String.prefix p s.

(** [\s] on the ASCII range: TAB, LF, VT, FF, CR and SPACE. *)
Definition isSpace (c : ascii) : bool :=
  let n := nat_of_ascii c in
  ((9 <=? n) && (n <=? 13)) || (n =? 32).

(** [c.toLowerCase()] and [c.toUpperCase()] on the ASCII range. *)
Definition lowerChar (c : ascii) : ascii :=
  let n := nat_of_ascii c in
  if (65 <=? n) && (n <=? 90) then ascii_of_nat (n + 32) else c.

Definition upperChar (c : ascii) : ascii :=
  let n := nat_of_ascii c in
  if (97 <=? n) && (n <=? 122) then ascii_of_nat (n - 32) else c.

Definition toLowerCase (s : string) : string := str (map lowerChar (chars s)).

(** [s.split(/[class]+/)]: the fragments between maximal runs of separator
    characters.  A separator run at either end leaves an empty fragment
    there, and the empty string splits into one empty fragment.  The flag
    tells whether the previous character was a separator. *)
Fixpoint splitRunsFrom (sep : ascii -> bool) (inSep : bool) (s : list ascii)
  : list (list ascii) :=
  match s with
  | [] => [[]]
  | c :: t =>
      if sep c then
        if inSep then splitRunsFrom sep true t
        else [] :: splitRunsFrom sep true t
      else
        match splitRunsFrom sep false t with
        | f :: fs => (c :: f) :: fs
        | [] => [[c]]
        end
  end.

Definition splitRuns (sep : ascii -> bool) (s : string) : list string :=
  map str (splitRunsFrom sep false (chars s)).

(** [s.split(c)] for a one-character separator: every occurrence of the
    separator ends a fragment. *)
Fixpoint splitCharFrom (c : ascii) (s : list ascii) : list (list ascii) :=
  match s with
  | [] => [[]]
  | x :: t =>
      if Ascii.eqb x c then [] :: splitCharFrom c t
      else
        match splitCharFrom c t with
        | f :: fs => (x :: f) :: fs
        | [] => [[x]]
        end
  end.

Definition splitChar (c : ascii) (s : string) : list string :=
  map str (splitCharFrom c (chars s)).

(** [Boolean(s)] for a string: false only for the empty string. *)
Definition truthy (s : string) : bool :=
  match s with EmptyString => false | _ => true end.

(** [s.trim()] *)
Fixpoint dropSpaces (l : list ascii) : list ascii :=
  match l with
  | c :: t => if isSpace c then dropSpaces t else l
  | [] => []
  end.

Definition trim (s : string) : string :=
  str (rev (dropSpaces (rev (dropSpaces (chars s))))).

(** [s.substring(0, n)] *)
Definition substring0 (n : nat) (s : string) : string := String.substring 0 n s.

(** [s.replace(/\s+/g, ' ')] *)
Fixpoint collapseFrom (inSp : bool) (l : list ascii) : list ascii :=
  match l with
  | [] => []
  | c :: t =>
      if isSpace c then
        if inSp then collapseFrom true t else " "%char :: collapseFrom true t
      else c :: collapseFrom false t
  end.

Definition collapseSpaces (s : string) : string :=
  str (collapseFrom false (chars s)).

(** [l.join(sep)] *)
Fixpoint join (sep : string) (l : list string) : string :=
  match l with
  | [] => ""
  | [x] => x
  | x :: t => x +:+ sep +:+ join sep t
  end.

(** [[...new Set(l)]]: the distinct elements of [l] in order of first
    occurrence. *)
Definition setSpread (l : list string) : list string :=
  fold_left (fun acc x => if bool_decide (x ∈ acc) then acc else acc ++ [x]) l [].

(** *** Numbers

    A double is given by its exact value.  [exponentOf x] is the exponent
    [e] of a positive [x], with [2^e <= x < 2^(e+1)]. *)
Definition exponentOf (x : Q) : Z :=
  let e := (Z.log2 (Qnum x) - Z.log2 (Zpos (Qden x)))%Z in
  if Qle_bool (2 ^ e) x then e else (e - 1)%Z.

(** The integer nearest to [x], the even one of the two when [x] lies
    halfway. *)
Definition nearestEven (x : Q) : Z :=
  let f := Qfloor x in
  match (x - inject_Z f ?= 1 # 2)%Q with
  | Lt => f
  | Gt => (f + 1)%Z
  | Eq => if Z.even f then f else (f + 1)%Z
  end.

(** The double nearest to a positive [x]: the multiple of the unit in the
    last place of [x], 53 binary digits below its leading digit and never
    below [2^-1074], that is nearest to [x], the even one of two. *)
Definition nearestDouble (x : Q) : Q :=
  let ulp := (2 ^ Z.max (exponentOf x - 52) (-1074))%Q in
  (inject_Z (nearestEven (x / ulp)) * ulp)%Q.

(** The rounding of the result of an arithmetic operation, and the value
    of a decimal literal: round to nearest, ties to even.  (No number of
    this program comes near the largest double, and a zero carries no
    sign.) *)
Definition double (x : Q) : Q :=
  match Qnum x with
  | Z0 => 0%Q
  | Zpos _ => Qred (nearestDouble x)
  | Zneg _ => Qred (- nearestDouble (- x))
  end.

(** [Math.round(x)]: the nearest integer, a tie going up. *)
Definition round (x : Q) : Z := Qfloor (x + (1 # 2))%Q.

(** [x.toFixed(2)] for a double [x >= 0], given by its exact value: the
    decimal notation of the integer [n] for which [n / 100] is nearest to
    [x] (the larger one of two), with two digits after the point. *)
Definition decimal (n : N) : string := NilZero.string_of_uint (N.to_uint n).

Definition toFixed2 (x : Q) : string :=
  let n := Z.to_N (Qfloor (x * 100 + (1 # 2))%Q) in
  let f := (n mod 100)%N in
  decimal (n / 100)%N +:+ "." +:+
  (if (f <? 10)%N then "0" +:+ decimal f else decimal f).

End Js.

(** The result of a computation that can throw, the message of the error
    standing for that of the engine.  [Unmodelled] marks an input on which
    the behaviour of the JavaScript engine is outside this embedding. *)
Inductive Outcome (A : Type) : Type :=
| Returns (a : A)
| Throws (message : string)
| Unmodelled.
Arguments Returns {A} a.
Arguments Throws {A} message.
Arguments Unmodelled {A}.

Definition bindOutcome {A B} (x : Outcome A) (k : A -> Outcome B) : Outcome B :=
  match x with
  | Returns a => k a
  | Throws m => Throws m
  | Unmodelled => Unmodelled
  end.

Notation "'let!' x ':=' c1 'in' c2" := (bindOutcome c1 (fun x => c2))
  (at level 10, x name, c1 at level 100, c2 at level 200).

(** ** Regular expressions ([new RegExp(pattern, 'gi')])

    The fragment of the pattern language made of pattern characters, [.],
    capturing groups, alternation and the greedy quantifiers [*], [+] and
    [?].  Anchors, escapes, character classes, braces, lazy quantifiers and
    the [(?...)] groups are outside the fragment: the compiler answers
    [Unmodelled] on them. *)

Module RegExp.

Inductive regex : Type :=
| Empty
| Chr (c : ascii)
| Dot
| Seq (r1 r2 : regex)
| Alt (r1 r2 : regex)
| Star (r : regex)
| Plus (r : regex)
| Opt (r : regex).

(** The syntax characters of the pattern language. *)
Definition isSyntaxChar (c : ascii) : bool :=
  bool_decide (c ∈ ["^"; "$"; "\"; "."; "*"; "+"; "?"; "("; ")"; "["; "]"; "{"; "}"; "|"]%char).

(** A group under construction: the alternatives already closed by [|],
    the terms of the current alternative, and whether the last term may take
    a quantifier. *)
Record Frame := {
  alternatives : list regex;
  terms : list regex;
  quantifiable : bool
}.

Definition emptyFrame : Frame :=
  {| alternatives := []; terms := []; quantifiable := false |}.

Fixpoint sequence (l : list regex) : regex :=
  match l with
  | [] => Empty
  | [r] => r
  | r :: t => Seq r (sequence t)
  end.

Fixpoint disjunction (l : list regex) : regex :=
  match l with
  | [] => Empty
  | [r] => r
  | r :: t => Alt r (disjunction t)
  end.

Definition closeFrame (f : Frame) : regex :=
  disjunction (alternatives f ++ [sequence (terms f)]).

Definition pushTerm (f : Frame) (r : regex) : Frame :=
  {| alternatives := alternatives f; terms := terms f ++ [r]; quantifiable := true |}.

Definition closeAlternative (f : Frame) : Frame :=
  {| alternatives := alternatives f ++ [sequence (terms f)];
     terms := []; quantifiable := false |}.

(** Apply a quantifier to the last term of the frame. *)
Definition quantify (q : regex -> regex) (f : Frame) : Frame :=
  match rev (terms f) with
  | last :: before =>
      {| alternatives := alternatives f;
         terms := rev before ++ [q last];
         quantifiable := false |}
  | [] => f
  end.

Definition quantifierOf (c : ascii) : option (regex -> regex) :=
  if Ascii.eqb c "*" then Some Star
  else if Ascii.eqb c "+" then Some Plus
  else if Ascii.eqb c "?" then Some Opt
  else None.

Definition nextIs (c : ascii) (s : list ascii) : bool :=
  match s with
  | x :: _ => Ascii.eqb x c
  | [] => false
  end.

(** The pattern parser: one pass over the pattern with the stack of the
    groups that are open.  What it throws is the reason of the syntax
    error. *)
Fixpoint parse (stack : list Frame) (cur : Frame) (p : list ascii)
  : Outcome regex :=
  match p with
  | [] =>
      match stack with
      | [] => Returns (closeFrame cur)
      | _ :: _ => Throws "Unterminated group"
      end
  | c :: rest =>
      match quantifierOf c with
      | Some q =>
          if quantifiable cur then
            if nextIs "?" rest then Unmodelled
            else parse stack (quantify q cur) rest
          else Throws "Nothing to repeat"
      | None =>
          if Ascii.eqb c "(" then
            if nextIs "?" rest then Unmodelled
            else parse (cur :: stack) emptyFrame rest
          else if Ascii.eqb c ")" then
            match stack with
            | parent :: stack' => parse stack' (pushTerm parent (closeFrame cur)) rest
            | [] => Throws "Unmatched ')'"
            end
          else if Ascii.eqb c "|" then parse stack (closeAlternative cur) rest
          else if Ascii.eqb c "." then parse stack (pushTerm cur Dot) rest
          else if isSyntaxChar c then Unmodelled
          else parse stack (pushTerm cur (Chr c)) rest
      end
  end.

(** [new RegExp(pattern, 'gi')].  The message of a syntax error names the
    pattern with its flags, then the reason. *)
Definition compile (pattern : string) : Outcome regex :=
  match parse [] emptyFrame (Js.chars pattern) with
  | Throws reason =>
      Throws ("Invalid regular expression: /" +:+ pattern +:+ "/gi: " +:+ reason)
  | other => other
  end.

(** Character comparison under the [i] flag. *)
Definition sameChar (a b : ascii) : bool :=
  Ascii.eqb (Js.upperChar a) (Js.upperChar b).

(** [.] matches every character but the line terminators. *)
Definition isLineTerminator (c : ascii) : bool :=
  let n := nat_of_ascii c in (n =? 10) || (n =? 13).

(** Greedy iteration: the matches of the body that consume something,
    each followed by further iterations, then the empty iteration. *)
Fixpoint iterate (body : list ascii -> list (list ascii)) (fuel : nat)
  (s : list ascii) : list (list ascii) :=
  match fuel with
  | 0 => [s]
  | S fuel' =>
      flat_map (fun rest =>
                  if length rest <? length s then iterate body fuel' rest else [])
               (body s)
      ++ [s]
  end.

(** The backtracking matcher: the suffixes left by the matches of [r] at
    the head of [s], in the order in which backtracking tries them. *)
Fixpoint matches (r : regex) (s : list ascii) : list (list ascii) :=
  match r with
  | Empty => [s]
  | Chr c =>
      match s with
      | x :: t => if sameChar x c then [t] else []
      | [] => []
      end
  | Dot =>
      match s with
      | x :: t => if isLineTerminator x then [] else [t]
      | [] => []
      end
  | Seq r1 r2 => flat_map (matches r2) (matches r1 s)
  | Alt r1 r2 => matches r1 s ++ matches r2 s
  | Star r1 => iterate (matches r1) (length s) s
  | Plus r1 => flat_map (fun rest => iterate (matches r1) (length rest) rest) (matches r1 s)
  | Opt r1 =>
      filter (fun rest => length rest <? length s) (matches r1 s) ++ [s]
  end.

(** The match found at the head of [s], if any. *)
Definition matchAt (r : regex) (s : list ascii) : option (list ascii) :=
  head (matches r s).

(** [(s.match(re) || []).length] for a global expression: the matches are
    searched from left to right, each search starting where the previous
    match ended, one character further after an empty match.  [skip] is the
    number of characters still covered by the previous match. *)
Fixpoint countFrom (r : regex) (skip : nat) (s : list ascii) : nat :=
  match skip with
  | S k =>
      match s with
      | [] => 0
      | _ :: t => countFrom r k t
      end
  | 0 =>
      match matchAt r s with
      | None =>
          match s with
          | [] => 0
          | _ :: t => countFrom r 0 t
          end
      | Some rest =>
          S (match s with
             | [] => 0
             | _ :: t => countFrom r (length s - length rest - 1) t
             end)
      end
  end.

Definition countMatches (r : regex) (s : string) : nat :=
  countFrom r 0 (Js.chars s).

End RegExp.

(** ** Pages *)

(** An image of a page: the [src] attribute when present, and the [alt] and
    [title] attributes with the empty string for a missing one. *)
Record Image := {
  src : option string;
  alt : string;
  img_title : string
}.

(** A parsed JSON-LD block, as far as [analyzeStructuredData] reads it:
    [null], or any other value with its ['@type'] property when that
    property is present and truthy. *)
Inductive JsonLd : Type :=
| JsonNull
| JsonValue (atType : option string).

(** What the selectors of [crawlPage] return on a fetched HTML document:
    the text of [title], the [content] attribute of the description meta
    tag, the text of the main content after the removal of the non-content
    elements, the [href] attributes of the anchors in document order, the
    texts of the headings of each level, the attributes of the images, and
    the JSON-LD blocks ([None] for a block that [JSON.parse] rejects). *)
Record Document := {
  doc_title : string;
  doc_description : option string;
  doc_text : string;
  doc_hrefs : list string;
  doc_headings : nat -> list string;
  doc_images : list (option string * option string * option string);
  doc_jsonld : list (option JsonLd)
}.

(** The page record built by [crawlPage].  ([metaTags] and [loadTime] are
    read by no analysis and are left out.) *)
Record PageRecord := {
  url : string;
  rawHtml : Document;
  title : string;
  description : string;
  content : string;
  headings : nat -> list string;
  images : list Image;
  links : list string;
  structuredData : list JsonLd;
  wordCount : nat
}.

(** ** The crawler ([EnhancedAnalyzer.crawlWebsite]) *)

(** One line of the console trace of a crawl: the URL announced before the
    request, and whether the request succeeded (a failure is the line
    followed by a warning). *)
Definition Attempt : Type := string * bool.

Record CrawlState := {
  pages : list PageRecord;
  visited : gset string;
  toVisit : list string;
  requests : nat;
  trace : list Attempt
}.

(** [s.split(/\s+/).filter(w => w.length > 0)] *)
Definition wordsOf (s : string) : list string :=
  filter (fun w => 0 < String.length w) (Js.splitRuns Js.isSpace s).

Section Crawler.

(** [new URL(href, base).href], or [None] when the constructor throws. *)
Variable resolveUrl : string -> string -> option string.

(** The answer of the web to the [n]-th request of the crawl, for a URL:
    the parsed document, or [None] when [axios.get] or the parser fails. *)
Variable web : nat -> string -> option Document.

(** [this.maxPages] *)
Variable maxPages : nat.

Definition extractContent (d : Document) : string :=
  Js.substring0 10000 (Js.trim (Js.collapseSpaces (doc_text d))).

Definition extractHeadings (d : Document) : nat -> list string :=
  fun i => if (1 <=? i) && (i <=? 6) then map Js.trim (doc_headings d i) else [].

Definition extractImages (d : Document) : list Image :=
  map (fun '(s, a, t) =>
         {| src := s; alt := default "" a; img_title := default "" t |})
      (doc_images d).

(** The body of the [each] callback of [extractLinks]: push the resolved
    URL when it starts with the base URL, skip an href that does not
    parse. *)
Definition pushLink (baseUrl : string) (acc : list string) (href : string)
  : list string :=
  match resolveUrl href baseUrl with
  | Some absoluteUrl =>
      if Js.startsWith absoluteUrl baseUrl then acc ++ [absoluteUrl] else acc
  | None => acc
  end.

Definition extractLinks (d : Document) (baseUrl : string) : list string :=
  Js.setSpread (fold_left (pushLink baseUrl) (doc_hrefs d) []).

(** A malformed block is skipped with a warning. *)
Definition extractStructuredData (d : Document) : list JsonLd :=
  omap id (doc_jsonld d).

Definition getWordCount (d : Document) : nat :=
  length (wordsOf (extractContent d)).

Definition crawlPage (n : nat) (u : string) : option PageRecord :=
  match web n u with
  | Some d =>
      Some {| url := u;
              rawHtml := d;
              title := Js.trim (doc_title d);
              description := default "" (doc_description d);
              content := extractContent d;
              headings := extractHeadings d;
              images := extractImages d;
              links := extractLinks d u;
              structuredData := extractStructuredData d;
              wordCount := getWordCount d |}
  | None => None
  end.

Definition initialState (seed : string) : CrawlState :=
  {| pages := []; visited := ∅; toVisit := [seed]; requests := 0; trace := [] |}.

(** One iteration of the [while] loop; [None] when the loop condition is
    false. *)
Definition crawlIter (st : CrawlState) : option CrawlState :=
  match toVisit st with
  | [] => None
  | currentUrl :: rest =>
      if length (pages st) <? maxPages then
        if bool_decide (currentUrl ∈ visited st) then
          Some {| pages := pages st; visited := visited st; toVisit := rest;
                  requests := requests st; trace := trace st |}
        else
          match crawlPage (requests st) currentUrl with
          | Some page =>
              let visited' := visited st ∪ {[currentUrl]} in
              let found := extractLinks (rawHtml page) currentUrl in
              Some {| pages := pages st ++ [page];
                      visited := visited';
                      toVisit := rest ++ filter (fun l => l ∉ visited') found;
                      requests := S (requests st);
                      trace := trace st ++ [(currentUrl, true)] |}
          | None =>
              Some {| pages := pages st; visited := visited st; toVisit := rest;
                      requests := S (requests st);
                      trace := trace st ++ [(currentUrl, false)] |}
          end
      else None
  end.

(** The loop, cut after [fuel] iterations. *)
Fixpoint crawlLoop (fuel : nat) (st : CrawlState) : option CrawlState :=
  match fuel with
  | 0 => None
  | S fuel' =>
      match crawlIter st with
      | None => Some st
      | Some st' => crawlLoop fuel' st'
      end
  end.

Definition crawlRun (fuel : nat) (seed : string) : option CrawlState :=
  crawlLoop fuel (initialState seed).

Definition crawlWebsite (fuel : nat) (seed : string) : option (list PageRecord) :=
  pages <$> crawlRun fuel seed.

End Crawler.

(** ** Meta tags ([analyzeMetaTags], [optimizeTitle], [optimizeDescription]) *)

Record MetaEntry := {
  me_url : string;
  me_text : string;
  me_length : nat;
  me_valid : bool
}.

(** The order in which the sort of the engine leaves the entries of the
    word frequencies when the comparison function is not consistent (see
    [extractKeyPhrases]): the language leaves it to the implementation. *)
Definition SortOrder : Type := list (string * nat) -> list (string * nat).

(** A suggestion.  The suggested text is a function of the order that is
    left to the engine. *)
Record Suggestion := {
  sg_url : string;
  sg_type : string;
  sg_current : string;
  suggested : SortOrder -> string
}.

Record MetaTags := {
  mt_title : list MetaEntry;
  mt_description : list MetaEntry;
  issues : list string;
  suggestions : list Suggestion
}.

Definition stopWords : list string :=
  ["this"; "that"; "with"; "have"; "will"; "construction"; "environmental"].

(** [wordFreq[word] = (wordFreq[word] || 0) + 1] on the own properties of
    the object, kept in insertion order. *)
Fixpoint bump (word : string) (freq : list (string * nat)) : list (string * nat) :=
  match freq with
  | [] => [(word, 1)]
  | (w, n) :: t => if String.eqb w word then (w, S n) :: t else (w, n) :: bump word t
  end.

Definition isDigit (c : ascii) : bool :=
  let n := nat_of_ascii c in (48 <=? n) && (n <=? 57).

Definition digitsValue (l : list ascii) : N :=
  fold_left (fun acc c => (acc * 10 + N.of_nat (nat_of_ascii c - 48))%N) l 0%N.

(** The array index that a property key denotes: a canonical decimal
    numeral below 2^32 - 1. *)
Definition arrayIndex (key : string) : option N :=
  match Js.chars key with
  | [] => None
  | c :: t =>
      if forallb isDigit (c :: t)
         && (negb (Ascii.eqb c "0") || bool_decide (t = []))
         && (length (c :: t) <=? 10)
         && (digitsValue (c :: t) <? 4294967295)%N
      then Some (digitsValue (c :: t))
      else None
  end.

(** Insertion into a list sorted by ascending index. *)
Fixpoint insertIndex (e : N * (string * nat)) (l : list (N * (string * nat)))
  : list (N * (string * nat)) :=
  match l with
  | [] => [e]
  | x :: t => if (fst e <? fst x)%N then e :: x :: t else x :: insertIndex e t
  end.

(** [Object.entries(wordFreq)]: the array-index keys in ascending order,
    then the other keys in insertion order. *)
Definition entries (freq : list (string * nat)) : list (string * nat) :=
  let indexed :=
    omap (fun e => match arrayIndex (fst e) with Some i => Some (i, e) | None => None end) freq in
  let named :=
    filter (fun e => arrayIndex (fst e) = None) freq in
  map snd (foldr insertIndex [] indexed) ++ named.

(** Insertion for the stable sort by descending count: the new entry comes
    from earlier in the array than the entries already placed, so it goes
    before the first entry whose count is not greater. *)
Fixpoint insertByCount (e : string * nat) (l : list (string * nat))
  : list (string * nat) :=
  match l with
  | [] => [e]
  | x :: t => if snd e <? snd x then x :: insertByCount e t else e :: x :: t
  end.

Definition sortByCount (l : list (string * nat)) : list (string * nat) :=
  foldr insertByCount [] l.

Definition isKeyWord (word : string) : bool :=
  (3 <? String.length word) && negb (bool_decide (word ∈ stopWords)).

(** The frequency object built by the [forEach] of [extractKeyPhrases], by
    its own properties in insertion order.  ["__proto__"] never becomes an
    own property. *)
Definition wordFreqOf (counted : list string) : list (string * nat) :=
  fold_left (fun freq w => if String.eqb w "__proto__" then freq else bump w freq)
            counted [].

(** [extractKeyPhrases].  A word named like an inherited property of the
    frequency object is not counted as the others are: ["__proto__"] never
    becomes an own property, and ["constructor"] gets a string for a count,
    after which the order of the sort is left to the engine; the result is
    [None] then. *)
Definition extractKeyPhrases (content : string) : option (list string) :=
  let words := Js.splitRuns Js.isSpace (Js.toLowerCase content) in
  let counted := filter (fun w => isKeyWord w = true) words in
  if bool_decide ("constructor" ∈ counted) then None
  else
    let wordFreq :=
      fold_left (fun freq w => if String.eqb w "__proto__" then freq else bump w freq)
                counted [] in
    Some (map fst (take 5 (sortByCount (entries wordFreq)))).

(** [extractKeyPhrases] on every content, given the order that the engine
    gives the entries when ["constructor"] is among the counted words (its
    entry stands there with the number of its occurrences). *)
Definition keyPhrasesOf (engine : SortOrder) (content : string) : list string :=
  match extractKeyPhrases content with
  | Some keyPhrases => keyPhrases
  | None =>
      let words := Js.splitRuns Js.isSpace (Js.toLowerCase content) in
      let counted := filter (fun w => isKeyWord w = true) words in
      map fst (take 5 (engine (entries (wordFreqOf counted))))
  end.

(** [s.substring(0, n) + (s.length > n ? '...' : '')] *)
Definition ellipsize (n : nat) (s : string) : string :=
  Js.substring0 n s +:+ (if n <? String.length s then "..." else "").

Definition optimizeTitle (engine : SortOrder) (currentTitle content : string) : string :=
  let keyPhrases := keyPhrasesOf engine content in
  let optimized := Js.join " | " (take 2 keyPhrases) in
  ellipsize 57 optimized.

Definition optimizeDescription (content : string) : string :=
  let sentences :=
    filter (fun s => 20 < String.length (Js.trim s)) (Js.splitChar "." content) in
  let description :=
    match sentences with
    | s :: _ => s
    | [] => Js.substring0 150 content
    end in
  ellipsize 152 description.

Definition emptyMetaTags : MetaTags :=
  {| mt_title := []; mt_description := []; issues := []; suggestions := [] |}.

(** The body of the [forEach] callback of [analyzeMetaTags]. *)
Definition metaTagsOfPage (metaTags : MetaTags) (page : PageRecord) : MetaTags :=
  let tlen := String.length (title page) in
  let dlen := String.length (description page) in
  {| mt_title := mt_title metaTags ++
       [{| me_url := url page; me_text := title page; me_length := tlen;
           me_valid := (0 <? tlen) && (tlen <=? 60) |}];
     mt_description := mt_description metaTags ++
       [{| me_url := url page; me_text := description page; me_length := dlen;
           me_valid := (0 <? dlen) && (dlen <=? 155) |}];
     suggestions := suggestions metaTags ++
       (if 60 <? tlen then
          [{| sg_url := url page; sg_type := "title"; sg_current := title page;
              suggested := fun engine => optimizeTitle engine (title page) (content page) |}]
        else []) ++
       (if (155 <? dlen) || (dlen =? 0) then
          [{| sg_url := url page; sg_type := "description";
              sg_current := description page;
              suggested := fun _ => optimizeDescription (content page) |}]
        else []);
     issues := issues metaTags ++
       (if tlen =? 0 then [url page +:+ ": Missing title"] else []) ++
       (if 60 <? tlen then [url page +:+ ": Title too long"] else []) ++
       (if dlen =? 0 then [url page +:+ ": Missing description"] else []) ++
       (if 155 <? dlen then [url page +:+ ": Description too long"] else []) |}.

Definition analyzeMetaTags (pages : list PageRecord) : MetaTags :=
  fold_left metaTagsOfPage pages emptyMetaTags.

(** ** Keyword density ([analyzeKeywordDensity]) *)

Record PageDensity := {
  pd_url : string;
  occurrences : nat;
  density : string
}.

Record KeywordReport := {
  overall : Q;
  byPage : list PageDensity
}.

(** [d > 0 ? (n / d) * 100 : 0]: the quotient is rounded to a double, and
    so is its product by 100. *)
Definition percentage (n d : nat) : Q :=
  if 0 <? d
  then Js.double (Js.double (inject_Z (Z.of_nat n) / inject_Z (Z.of_nat d)) * 100)%Q
  else 0%Q.

(** The accumulators of the inner [forEach]: the entries of [byPage] and
    the two totals. *)
Record Tally := {
  entriesSoFar : list PageDensity;
  totalOccurrences : nat;
  totalWords : nat
}.

(** The body of the inner [forEach] callback. *)
Definition tallyPage (keyword : string) (tally : Tally) (page : PageRecord)
  : Outcome Tally :=
  let content := Js.toLowerCase (content page) in
  let keywordLower := Js.toLowerCase keyword in
  let! re := RegExp.compile keywordLower in
  let occurrences := RegExp.countMatches re content in
  let pageDensity := percentage occurrences (wordCount page) in
  Returns {| entriesSoFar := entriesSoFar tally ++
               [{| pd_url := url page; occurrences := occurrences;
                   density := Js.toFixed2 pageDensity |}];
             totalOccurrences := totalOccurrences tally + occurrences;
             totalWords := totalWords tally + wordCount page |}.

Fixpoint tallyPages (keyword : string) (tally : Tally) (pages : list PageRecord)
  : Outcome Tally :=
  match pages with
  | [] => Returns tally
  | page :: rest =>
      let! tally' := tallyPage keyword tally page in
      tallyPages keyword tally' rest
  end.

(** The body of the outer [forEach] callback, for one keyword. *)
Definition keywordReport (pages : list PageRecord) (keyword : string)
  : Outcome KeywordReport :=
  let! tally :=
    tallyPages keyword
      {| entriesSoFar := []; totalOccurrences := 0; totalWords := 0 |} pages in
  Returns {| overall := percentage (totalOccurrences tally) (totalWords tally);
             byPage := entriesSoFar tally |}.

(** The outer [forEach], on the own properties of [density].  The
    assignment of the report to the key ["__proto__"] makes the report the
    prototype of [density] and creates no property. *)
Fixpoint densityFrom (density : gmap string KeywordReport)
  (pages : list PageRecord) (keywords : list string)
  : Outcome (gmap string KeywordReport) :=
  match keywords with
  | [] => Returns density
  | keyword :: rest =>
      let! report := keywordReport pages keyword in
      densityFrom (if String.eqb keyword "__proto__" then density
                   else <[keyword := report]> density)
                  pages rest
  end.

Definition analyzeKeywordDensity (pages : list PageRecord) (keywords : list string)
  : Outcome (gmap string KeywordReport) :=
  densityFrom ∅ pages keywords.

(** ** The other page analyses *)

Definition isTerminator (c : ascii) : bool :=
  bool_decide (c ∈ ["."; "!"; "?"]%char).

Definition Qclamp (lo hi x : Q) : Q :=
  let m := if Qle_bool hi x then hi else x in   (* Math.min(hi, x) *)
  if Qle_bool m lo then lo else m.              (* Math.max(lo, m) *)

Definition ofNat (n : nat) : Q := inject_Z (Z.of_nat n).

(** The score that [calculateReadabilityScore] adds for one page. *)
Definition pageReadability (page : PageRecord) : Q :=
  let sentences :=
    filter (fun s => 10 < String.length (Js.trim s))
           (Js.splitRuns isTerminator (content page)) in
  let words := wordsOf (content page) in
  if (0 <? length sentences) && (0 <? length words) then
    let avgWordsPerSentence := (ofNat (length words) / ofNat (length sentences))%Q in
    let avgWordLength :=
      (ofNat (foldl (fun sum word => (sum + String.length word)%nat) 0%nat words)
       / ofNat (length words))%Q in
    Qclamp 0 100
      ((206835 # 1000) - (1015 # 1000) * avgWordsPerSentence
       - (846 # 10) * (avgWordLength / 10))%Q
  else 0%Q.

Definition calculateReadabilityScore (pages : list PageRecord) : Z :=
  let totalScore := foldl (fun total page => total + pageReadability page)%Q 0%Q pages in
  if 0 <? length pages then Js.round (totalScore / ofNat (length pages))%Q else 75%Z.

Record HeadingStructure := {
  hs_issues : list string;
  hierarchy : list (string * (nat -> list string))
}.

Definition analyzeHeadingStructure (pages : list PageRecord) : HeadingStructure :=
  foldl (fun structure page =>
           let h1 := headings page 1 in
           {| hs_issues := hs_issues structure ++
                (if length h1 =? 0 then [url page +:+ ": Missing H1"] else []) ++
                (if 1 <? length h1 then [url page +:+ ": Multiple H1 tags"] else []);
              hierarchy := hierarchy structure ++ [(url page, headings page)] |})
        {| hs_issues := []; hierarchy := [] |} pages.

Record ImageOptimization := {
  io_total : nat;
  missingAlt : nat;
  io_issues : list string
}.

Definition analyzeImageOptimization (pages : list PageRecord) : ImageOptimization :=
  foldl (fun acc page =>
           foldl (fun images img =>
                    if Js.truthy (alt img) then
                      {| io_total := S (io_total images);
                         missingAlt := missingAlt images;
                         io_issues := io_issues images |}
                    else
                      {| io_total := S (io_total images);
                         missingAlt := S (missingAlt images);
                         io_issues := io_issues images ++
                           [url page +:+ ": Image missing alt text ("
                            +:+ default "undefined" (src img) +:+ ")"] |})
                 acc (images page))
        {| io_total := 0; missingAlt := 0; io_issues := [] |} pages.

(** [analyzeInternalLinks]: the total number of links; no issue is ever
    recorded. *)
Definition analyzeInternalLinks (pages : list PageRecord) : nat * list string :=
  (foldl (fun total page => total + length (links page)) 0 pages, []).

Record StructuredDataSummary := {
  pagesWithData : nat;
  types : list string
}.

(** The inner [forEach] of [analyzeStructuredData]: reading ['@type'] of
    [null] throws. *)
Fixpoint collectTypes (types : list string) (blocks : list JsonLd)
  : Outcome (list string) :=
  match blocks with
  | [] => Returns types
  | JsonNull :: _ => Throws "Cannot read properties of null (reading '@type')"
  | JsonValue (Some t) :: rest => collectTypes (types ++ [t]) rest
  | JsonValue None :: rest => collectTypes types rest
  end.

Fixpoint structuredDataFrom (acc : StructuredDataSummary) (pages : list PageRecord)
  : Outcome StructuredDataSummary :=
  match pages with
  | [] => Returns acc
  | page :: rest =>
      if 0 <? length (structuredData page) then
        let! types' := collectTypes (types acc) (structuredData page) in
        structuredDataFrom
          {| pagesWithData := S (pagesWithData acc); types := types' |} rest
      else structuredDataFrom acc rest
  end.

Definition analyzeStructuredData (pages : list PageRecord)
  : Outcome StructuredDataSummary :=
  structuredDataFrom {| pagesWithData := 0; types := [] |} pages.

(** [averageWordCount] is [None] for [NaN], the rounded quotient of zero by
    zero. *)
Record ContentQuality := {
  averageWordCount : option Z;
  readabilityScores : list (string * nat)
}.

Definition analyzeContentQuality (pages : list PageRecord) : ContentQuality :=
  let totalWords := foldl (fun total page => total + wordCount page) 0 pages in
  {| averageWordCount :=
       if 0 <? length pages
       then Some (Js.round (ofNat totalWords / ofNat (length pages))%Q)
       else None;
     readabilityScores := map (fun page => (url page, 75)) pages |}.

Record TechnicalSEO := {
  mobileFriendly : bool;
  pageSpeed : nat * list string;
  headingStructure : HeadingStructure;
  imageOptimization : ImageOptimization;
  internalLinks : nat * list string;
  ts_structuredData : StructuredDataSummary;
  readabilityScore : Z
}.

Definition analyzeTechnicalSEO (pages : list PageRecord) : Outcome TechnicalSEO :=
  let headingStructure := analyzeHeadingStructure pages in
  let imageOptimization := analyzeImageOptimization pages in
  let internalLinks := analyzeInternalLinks pages in
  let! structuredData := analyzeStructuredData pages in
  Returns {| mobileFriendly := true;
             pageSpeed := (85, []);
             headingStructure := headingStructure;
             imageOptimization := imageOptimization;
             internalLinks := internalLinks;
             ts_structuredData := structuredData;
             readabilityScore := calculateReadabilityScore pages |}.

Record Analysis := {
  an_pages : list PageRecord;
  metaTags : MetaTags;
  keywordDensity : gmap string KeywordReport;
  technical : TechnicalSEO;
  contentQuality : ContentQuality;
  an_structuredData : StructuredDataSummary
}.

Definition analyzePages (pages : list PageRecord) (keywords : list string)
  : Outcome Analysis :=
  let metaTags := analyzeMetaTags pages in
  let! keywordDensity := analyzeKeywordDensity pages keywords in
  let! technical := analyzeTechnicalSEO pages in
  let contentQuality := analyzeContentQuality pages in
  let! structuredData := analyzeStructuredData pages in
  Returns {| an_pages := pages;
             metaTags := metaTags;
             keywordDensity := keywordDensity;
             technical := technical;
             contentQuality := contentQuality;
             an_structuredData := structuredData |}.

(** ** The whole analysis ([analyzeWebsite]) *)

(** The insights returned by [generateAiInsights]: the object parsed from
    the answer of the language model, or the error marker. *)
Inductive Insights : Type :=
| InsightsJson (json : string)
| InsightsError (details : string).

Record AnalysisResult := {
  ar_url : string;
  ar_keywords : list string;
  pagesAnalyzed : nat;
  analysis : Analysis;
  aiInsights : Insights
}.

Section Analyzer.

Variable resolveUrl : string -> string -> option string.
Variable web : nat -> string -> option Document.
Variable maxPages : nat.

(** The message of the error thrown by the constructor of the language
    model client, if it throws (it does without an API key). *)
Variable clientError : option string.

(** The answer of the language model to the prompt built around the
    combined content: the JSON text of the answer once parsed, or the
    message of the error of the call or of [JSON.parse]. *)
Variable complete : string -> string + string.

Definition initializeOpenAI : Outcome unit :=
  match clientError with
  | Some message => Throws message
  | None => Returns tt
  end.

Definition newlines : string := String (ascii_of_nat 10) (String (ascii_of_nat 10) "").

Definition generateAiInsights (analysis : Analysis) : Outcome Insights :=
  let! _ := initializeOpenAI in
  let combinedContent :=
    Js.substring0 8000 (Js.join newlines (map content (an_pages analysis))) in
  match complete combinedContent with
  | inl json => Returns (InsightsJson json)
  | inr details => Returns (InsightsError details)
  end.

(** [analyzeWebsite], without the time stamp of the result.  The result
    is [None] when the crawl is cut by the bound on its iterations. *)
Definition analyzeWebsite (fuel : nat) (u : string) (keywords : list string)
  : option (Outcome AnalysisResult) :=
  match crawlWebsite resolveUrl web maxPages fuel u with
  | None => None
  | Some pages =>
      let attempt :=
        let! analysis := analyzePages pages keywords in
        let! aiInsights := generateAiInsights analysis in
        Returns {| ar_url := u;
                   ar_keywords := keywords;
                   pagesAnalyzed := length pages;
                   analysis := analysis;
                   aiInsights := aiInsights |} in
      Some match attempt with
           | Throws message => Throws ("Failed to analyze website: " +:+ message)
           | other => other
           end
  end.

End Analyzer.

(** ** Readability ([utils/readability.js]) *)

Module Readability.

Definition isVowel (c : ascii) : bool :=
  bool_decide (c ∈ ["a"; "e"; "i"; "o"; "u"; "y"]%char).

(** The class [[^laeiouy]]. *)
Definition notLaeiouy (c : ascii) : bool :=
  negb (bool_decide (c ∈ ["l"; "a"; "e"; "i"; "o"; "u"; "y"]%char)).

(** [word.replace(/(?:[^laeiouy]es|ed|[^laeiouy]e)$/, '')], on the
    reversed word. *)
Definition stripSuffix (word : list ascii) : list ascii :=
  match rev word with
  | "s"%char :: "e"%char :: x :: rest => if notLaeiouy x then rev rest else word
  | "d"%char :: "e"%char :: rest => rev rest
  | "e"%char :: x :: rest => if notLaeiouy x then rev rest else word
  | _ => word
  end.

(** [word.replace(/^y/, '')] *)
Definition stripLeadingY (word : list ascii) : list ascii :=
  match word with
  | "y"%char :: rest => rest
  | _ => word
  end.

(** The number of matches of [/[aeiouy]{1,2}/g]: each match takes two
    vowels when two follow each other, one otherwise. *)
Fixpoint vowelGroups (word : list ascii) : nat :=
  match word with
  | [] => 0
  | c :: t =>
      if isVowel c then
        S (match t with
           | c2 :: t2 => if isVowel c2 then vowelGroups t2 else vowelGroups t
           | [] => 0
           end)
      else vowelGroups t
  end.

Definition countSyllablesInWord (word : string) : nat :=
  let word := Js.toLowerCase word in
  if String.length word <=? 3 then 1
  else
    let word := stripLeadingY (stripSuffix (Js.chars word)) in
    let syllables := vowelGroups word in
    if 0 <? syllables then syllables else 1.

Definition countSyllables (text : string) : nat :=
  let text := Js.toLowerCase text in
  if String.length text =? 0 then 0
  else
    let words := Js.splitRuns Js.isSpace text in
    foldl (fun syllableCount word => syllableCount + countSyllablesInWord word) 0 words.

Definition calculateFleschKincaid (text : string) : Q :=
  let sentences := length (filter (fun s => Js.truthy s = true) (Js.splitRuns isTerminator text)) in
  let words := length (filter (fun s => Js.truthy s = true) (Js.splitRuns Js.isSpace text)) in
  let syllables := countSyllables text in
  if (sentences =? 0) || (words =? 0) then 0%Q
  else
    let score :=
      Js.double
        (Js.double
           (Js.double (Js.double (39 # 100) * Js.double (ofNat words / ofNat sentences))
            + Js.double (Js.double (118 # 10) * Js.double (ofNat syllables / ofNat words)))
         - Js.double (1559 # 100))%Q in
    Js.double (inject_Z (Js.round (Js.double (score * 100))) / 100)%Q.

End Readability.

(** ** A small site for the examples

    Every href of the site is an absolute URL in normal form, which URL
    resolution returns unchanged whatever the base. *)

Module Site.

Definition absolute (href base : string) : option string := Some href.

Definition document (text : string) (hrefs : list string) : Document :=
  {| doc_title := "Home";
     doc_description := Some "A small site";
     doc_text := text;
     doc_hrefs := hrefs;
     doc_headings := fun _ => [];
     doc_images := [];
     doc_jsonld := [] |}.

(** The home page links to a page that cannot be fetched, to a second page
    and to another site; the second page links to the page that cannot be
    fetched and back to the home page. *)
Definition web (n : nat) (u : string) : option Document :=
  if String.eqb u "http://a/" then
    Some (document "welcome home" ["http://a/px"; "http://a/p"; "http://b/"])
  else if String.eqb u "http://a/p" then
    Some (document "second page" ["http://a/px"; "http://a/"])
  else None.

(** A site entered by its origin, without a slash behind it: its home page
    links to a host whose name continues that of the site, and to a page
    of the site. *)
Definition lookalike (n : nat) (u : string) : option Document :=
  if String.eqb u "http://a" then
    Some (document "welcome home" ["http://a.evil.com/"; "http://a/p"])
  else if String.eqb u "http://a.evil.com/" then
    Some (document "another site" [])
  else if String.eqb u "http://a/p" then
    Some (document "second page" [])
  else None.

(** A site that does not answer at all. *)
Definition unreachable (n : nat) (u : string) : option Document := None.

End Site.

(** Pages for the examples on meta tags. *)

Module Sample.

(** A text of [n] characters. *)
Definition filler (n : nat) : string := Js.str (repeat "x"%char n).

Definition page (pageTitle pageDescription pageContent : string) : PageRecord :=
  {| url := "http://a/";
     rawHtml := Site.document pageContent [];
     title := pageTitle;
     description := pageDescription;
     content := pageContent;
     headings := fun _ => [];
     images := [];
     links := [];
     structuredData := [];
     wordCount := length (wordsOf pageContent) |}.

End Sample.

(** ** Notions used by the statements *)

(** The invariant of the loop of the crawler, for a crawl started at
    [seed]: the cap is respected, the URLs of the pages are distinct and are
    the visited set, every page and every URL of the frontier starts with
    the seed URL, every link of a page is a resolved href that starts with
    the URL of the page, and the trace records the pages as its successful
    attempts, none of which is followed by a request for the same URL. *)
Record Inv (resolveUrl : string -> string -> option string) (maxPages : nat)
  (seed : string) (st : CrawlState) : Prop := {
  inv_cap : length (pages st) <= maxPages;
  inv_nodup : NoDup (map url (pages st));
  inv_visited : forall u, u ∈ visited st <-> u ∈ map url (pages st);
  inv_pages : forall p, p ∈ pages st ->
      Js.startsWith (url p) seed = true /\
      forall l, l ∈ links p ->
        Js.startsWith l (url p) = true /\ exists href, resolveUrl href (url p) = Some l;
  inv_frontier : forall u, u ∈ toVisit st -> Js.startsWith u seed = true;
  inv_trace_pages : map url (pages st) = map fst (filter (fun a => snd a = true) (trace st));
  inv_trace_after : forall l1 u l2,
      trace st = l1 ++ (u, true) :: l2 -> u ∉ map fst l2;
  inv_requests : requests st = length (trace st)
}.

(** What one page adds to the issues and to the suggestions of
    [analyzeMetaTags]. *)
Definition issuesOf (page : PageRecord) : list string :=
  issues (metaTagsOfPage emptyMetaTags page).

Definition suggestionsOf (page : PageRecord) : list Suggestion :=
  suggestions (metaTagsOfPage emptyMetaTags page).

(** [p] is a prefix of [s], character by character. *)
Fixpoint isPrefix (p s : list ascii) : bool :=
  match p, s with
  | [], _ => true
  | c :: p', x :: s' => Ascii.eqb c x && isPrefix p' s'
  | _ :: _, [] => false
  end.




(** A string without any syntax character of the pattern language. *)
Definition isLiteral (s : string) : bool :=
  forallb (fun c => negb (RegExp.isSyntaxChar c)) (Js.chars s).

(** The number of matches of a keyword, used as a pattern, in the content
    of a page. *)
Definition occurrencesIn (keyword : string) (page : PageRecord) : nat :=
  match RegExp.compile (Js.toLowerCase keyword) with
  | Returns re => RegExp.countMatches re (Js.toLowerCase (content page))
  | _ => 0
  end.

(** The entry of a page in the report of a keyword. *)
Definition densityEntry (keyword : string) (page : PageRecord) : PageDensity :=
  {| pd_url := url page;
     occurrences := occurrencesIn keyword page;
     density := Js.toFixed2 (percentage (occurrencesIn keyword page) (wordCount page)) |}.

Definition sumOf {A : Type} (f : A -> nat) (l : list A) : nat :=
  foldr (fun x total => f x + total) 0 l.


(** The number of maximal runs of characters that are no separators.  The
    flag tells whether the previous character belongs to a run. *)
Fixpoint countRunsFrom (sep : ascii -> bool) (inRun : bool) (l : list ascii) : nat :=
  match l with
  | [] => 0
  | c :: t =>
      if sep c then countRunsFrom sep false t
      else (if inRun then 0 else 1) + countRunsFrom sep true t
  end.

Definition countRuns (sep : ascii -> bool) (s : string) : nat :=
  countRunsFrom sep false (Js.chars s).

(** The last character of the string satisfies [p]. *)
Fixpoint lastIs (p : ascii -> bool) (l : list ascii) : bool :=
  match l with
  | [] => false
  | [c] => p c
  | _ :: t => lastIs p t
  end.

(** A string that neither starts nor ends with whitespace. *)
Definition edgesClean (s : string) : bool :=
  match Js.chars s with
  | [] => true
  | c :: t => negb (Js.isSpace c) && negb (lastIs Js.isSpace (c :: t))
  end.


(** *** The syllables of a word, as the amended statement on the grade
    level counts them

    A word of at most three characters counts for one syllable.  Of a
    longer word the ending goes first: a final [es] with the character
    before it when that character is neither [l] nor a vowel, else a
    final [ed], else a final [e] with the character before it under the
    same condition; then a leading [y] goes; every maximal run of [k]
    vowels left counts for [k / 2] syllables, rounded up; and a word left
    without a vowel counts for one. *)

Module SyllableRule.

Definition vowels : list ascii := ["a"; "e"; "i"; "o"; "u"; "y"]%char.

Definition isVowel (c : ascii) : bool := bool_decide (c ∈ vowels).







(** The lengths of the maximal runs of vowels of a word, [run] being the
    length of the run that the previous characters have opened. *)
Fixpoint vowelRuns (run : nat) (word : list ascii) : list nat :=
  match word with
  | [] => if run =? 0 then [] else [run]
  | c :: t =>
      if isVowel c then vowelRuns (S run) t
      else (if run =? 0 then [] else [run]) ++ vowelRuns 0 t
  end.


End SyllableRule.

(** *** The readability formula in the words of the specification

    Sentences are the fragments between runs of [.!?] that are neither
    empty nor made of whitespace only; words are the non-empty tokens
    between whitespace; the syllables of a word of more than three
    characters are its maximal runs of vowels, after the removal of the
    suffix and of the leading [y]. *)

Module ReadabilitySpec.

Definition isBlank (s : string) : bool := forallb Js.isSpace (Js.chars s).

Definition sentences (text : string) : nat :=
  length (filter (fun s => isBlank s = false) (Js.splitRuns isTerminator text)).

Definition words (text : string) : list string := wordsOf text.

Definition vowelRuns (word : list ascii) : nat :=
  countRunsFrom (fun c => negb (Readability.isVowel c)) false word.

Definition syllablesInWord (word : string) : nat :=
  let word := Js.toLowerCase word in
  if String.length word <=? 3 then 1
  else
    let runs :=
      vowelRuns (Readability.stripLeadingY (Readability.stripSuffix (Js.chars word))) in
    if 0 <? runs then runs else 1.

Definition syllables (text : string) : nat :=
  sumOf syllablesInWord (words text).

Definition fleschKincaid (text : string) : Q :=
  let s := sentences text in
  let w := length (words text) in
  if (s =? 0) || (w =? 0) then 0%Q
  else
    let score :=
      ((39 # 100) * (ofNat w / ofNat s)
       + (118 # 10) * (ofNat (syllables text) / ofNat w)
       - (1559 # 100))%Q in
    (inject_Z (Js.round (score * 100)) / 100)%Q.

End ReadabilitySpec.

(** The origin of a URL as a text: the scheme, [://] and the authority,
    that is the URL up to the first slash behind [://]. *)
Fixpoint untilSlash (l : list ascii) : list ascii :=
  match l with
  | [] => []
  | c :: t => if Ascii.eqb c "/" then [] else c :: untilSlash t
  end.

Fixpoint originChars (l : list ascii) : list ascii :=
  match l with
  | [] => []
  | c :: t =>
      match l with
      | ":"%char :: "/"%char :: "/"%char :: rest =>
          ":"%char :: "/"%char :: "/"%char :: untilSlash rest
      | _ => c :: originChars t
      end
  end.

Definition originOf (u : string) : string := Js.str (originChars (Js.chars u)).

(** ** More of [services/enhancedAnalyzer.js]: meta tag extraction *)

(** A [meta] element by its [name], [property] and [content] attributes. *)
Record MetaElement := {
  meta_name : option string;
  meta_property : option string;
  meta_content : option string
}.

(** [a || b] on attribute values: [a] when it is a non-empty string. *)
Definition orAttr (a b : option string) : option string :=
  match a with
  | Some s => if Js.truthy s then a else b
  | None => b
  end.

(** The body of the [each] callback of [extractMetaTags].  (An assignment
    of a string to the key ["__proto__"] creates no property.) *)
Definition putMetaTag (metaTags : gmap string string) (el : MetaElement)
  : gmap string string :=
  match orAttr (meta_name el) (meta_property el), meta_content el with
  | Some name, Some content =>
      if Js.truthy name && Js.truthy content && negb (String.eqb name "__proto__")
      then <[name := content]> metaTags
      else metaTags
  | _, _ => metaTags
  end.

Definition extractMetaTags (metas : list MetaElement) : gmap string string :=
  fold_left putMetaTag metas ∅.

(** The key under which an element is stored, if it is stored. *)
Definition storedKey (el : MetaElement) : option string :=
  match orAttr (meta_name el) (meta_property el), meta_content el with
  | Some name, Some content =>
      if Js.truthy name && Js.truthy content && negb (String.eqb name "__proto__")
      then Some name else None
  | _, _ => None
  end.

(** ** The browser-driven controller ([controllers/analyzeController.js]) *)

Module Controller.

(** [\w] *)
Definition isWordChar (c : ascii) : bool :=
  let n := nat_of_ascii c in
  ((48 <=? n) && (n <=? 57)) || ((65 <=? n) && (n <=? 90))
  || ((97 <=? n) && (n <=? 122)) || (n =? 95).

(** [s.match(/\b\w+\b/g) || []]: the maximal runs of word characters. *)
Fixpoint wordRuns (l : list ascii) : list (list ascii) :=
  match l with
  | [] => []
  | c :: t =>
      if isWordChar c then
        match t with
        | c2 :: _ =>
            if isWordChar c2 then
              match wordRuns t with
              | run :: runs => (c :: run) :: runs
              | [] => [[c]]
              end
            else [c] :: wordRuns t
        | [] => [[c]]
        end
      else wordRuns t
  end.

(** The body of the [forEach] callback of [calculateKeywordDensity].  (An
    assignment of a number to the key ["__proto__"] creates no property.) *)
Definition putDensity (wordArray : list string) (density : gmap string Q)
  (keyword : string) : gmap string Q :=
  let totalWords := length wordArray in
  let count := length (filter (fun word => word = Js.toLowerCase keyword) wordArray) in
  if String.eqb keyword "__proto__" then density
  else <[keyword := percentage count totalWords]> density.

Definition calculateKeywordDensity (text : string) (keywords : list string)
  : gmap string Q :=
  let wordArray := map Js.str (wordRuns (Js.chars (Js.toLowerCase text))) in
  fold_left (putDensity wordArray) keywords ∅.

(** [getInternalLinks], on the resolved [href] properties of the anchors of
    the page, in document order, and the URL of the page. *)
Definition getInternalLinks (hrefs : list string) (pageUrl baseUrl : string)
  (maxLinks : nat) : list string :=
  let links := filter (fun href => Js.startsWith href pageUrl = true) hrefs in
  let uniqueLinks := filter (fun link => link <> baseUrl) (Js.setSpread links) in
  take maxLinks uniqueLinks.








End Controller.

(** ** Notions used by the further statements *)

(** Whitespace occurs only as single spaces, and not at the head when
    [afterSpace] is set. *)
Fixpoint singleSpaced (afterSpace : bool) (l : list ascii) : bool :=
  match l with
  | [] => true
  | c :: t =>
      if Js.isSpace c then
        Ascii.eqb c " " && negb afterSpace && singleSpaced true t
      else singleSpaced false t
  end.

(** The first character of the string satisfies [p]. *)
Definition firstIs (p : ascii -> bool) (l : list ascii) : bool :=
  match l with
  | [] => false
  | c :: _ => p c
  end.


Definition timesIn (w : string) (l : list string) : nat :=
  length (filter (fun x => x = w) l).


(** The ['@type'] values of the JSON-LD blocks of a page. *)
Definition typesOf (page : PageRecord) : list string :=
  omap (fun block => match block with JsonValue t => t | JsonNull => None end)
       (structuredData page).

(** The number of images of a page without [alt] text. *)
Definition withoutAlt (page : PageRecord) : nat :=
  length (filter (fun img => Js.truthy (alt img) = false) (images page)).

(** What one page adds to the issues of [analyzeHeadingStructure]. *)
Definition headingIssuesOf (page : PageRecord) : list string :=
  (if length (headings page 1) =? 0 then [url page +:+ ": Missing H1"] else [])
  ++ (if 1 <? length (headings page 1) then [url page +:+ ": Multiple H1 tags"] else []).

(** * Properties *)

(** ** Strings *)

Lemma chars_app (a b : string) : Js.chars (a +:+ b) = Js.chars a ++ Js.chars b.
Proof. induction a as [|c a IH]; simpl; [done|]. by f_equal. Qed.

Lemma chars_inj (a b : string) : Js.chars a = Js.chars b -> a = b.
Proof.
  intros H. apply (f_equal Js.str) in H.
  unfold Js.str, Js.chars in H. by rewrite !String.string_of_list_ascii_of_string in H.
Qed.

Lemma chars_str (l : list ascii) : Js.chars (Js.str l) = l.
Proof. apply String.list_ascii_of_string_of_list_ascii. Qed.

Lemma startsWith_refl (s : string) : Js.startsWith s s = true.
Proof.
  unfold Js.startsWith. induction s as [|c s IH]; simpl; [done|].
  destruct (Ascii.ascii_dec c c); [done | congruence].
Qed.

Lemma prefix_trans (a b c : string) :
  String.prefix a b = true -> String.prefix b c = true -> String.prefix a c = true.
Proof.
  revert b c. induction a as [|x a IH]; intros b c Hab Hbc.
  - by destruct c.
  - destruct b as [|y b]; [by destruct c|].
    destruct c as [|z c]; [done|]. simpl in *.
    destruct (Ascii.ascii_dec x y) as [->|]; [|done].
    destruct (Ascii.ascii_dec y z) as [->|]; [|done].
    eauto.
Qed.

Lemma startsWith_trans (l p seed : string) :
  Js.startsWith l p = true -> Js.startsWith p seed = true ->
  Js.startsWith l seed = true.
Proof. unfold Js.startsWith. intros H1 H2. by eapply prefix_trans. Qed.

(** [setSpread] keeps exactly the elements of the list, without
    repetition. *)
Lemma setSpread_from (l acc : list string) :
  NoDup acc ->
  NoDup (fold_left (fun acc x => if bool_decide (x ∈ acc) then acc else acc ++ [x]) l acc)
  /\ forall x, x ∈ fold_left (fun acc x => if bool_decide (x ∈ acc) then acc else acc ++ [x]) l acc
               <-> x ∈ acc \/ x ∈ l.
Proof.
  revert acc. induction l as [|y l IH]; intros acc Hnd; simpl.
  - split; [done|]. intros x. rewrite elem_of_nil. tauto.
  - case_bool_decide as Hy.
    + destruct (IH acc Hnd) as [H1 H2]. split; [done|].
      intros x. rewrite H2, elem_of_cons.
      split; [tauto|]. intros [?|[->|?]]; tauto.
    + assert (NoDup (acc ++ [y])) as Hnd'.
      { apply NoDup_app. split_and!; [done| |apply NoDup_singleton].
        intros x Hx ->%list_elem_of_singleton. done. }
      destruct (IH _ Hnd') as [H1 H2]. split; [done|].
      intros x. rewrite H2, elem_of_app, list_elem_of_singleton, elem_of_cons. tauto.
Qed.

Lemma setSpread_NoDup (l : list string) : NoDup (Js.setSpread l).
Proof. apply setSpread_from. constructor. Qed.

Lemma setSpread_elem (l : list string) (x : string) : x ∈ Js.setSpread l <-> x ∈ l.
Proof.
  unfold Js.setSpread.
  destruct (setSpread_from l [] (NoDup_nil_2)) as [_ H].
  rewrite H, elem_of_nil. tauto.
Qed.

(** ** The crawler *)

(** Appending an attempt at a URL that has not succeeded so far keeps the
    property that no URL is requested again after a success. *)
Lemma after_success_snoc (tr : list Attempt) (c : string) (b : bool) :
  (forall l1 u l2, tr = l1 ++ (u, true) :: l2 -> u ∉ map fst l2) ->
  (forall u, (u, true) ∈ tr -> u <> c) ->
  forall l1 u l2, tr ++ [(c, b)] = l1 ++ (u, true) :: l2 -> u ∉ map fst l2.
Proof.
  intros Hafter Hfresh l1 u l2 Heq.
  destruct (decide (l2 = [])) as [->|Hne]; [simpl; apply not_elem_of_nil|].
  destruct (exists_last Hne) as (l2' & a & ->).
  rewrite app_comm_cons, app_assoc in Heq.
  apply app_inj_tail in Heq as [Heq <-].
  rewrite map_app, elem_of_app. simpl. rewrite list_elem_of_singleton.
  intros [Hin| ->]; [by eapply Hafter|].
  eapply Hfresh; [|done]. rewrite Heq. apply elem_of_app. right. left.
Qed.

Section CrawlerFacts.

Variable resolveUrl : string -> string -> option string.
Variable web : nat -> string -> option Document.
Variable maxPages : nat.

Local Abbreviation crawlPage := (crawlPage resolveUrl web).
Local Abbreviation crawlIter := (crawlIter resolveUrl web maxPages).
Local Abbreviation crawlLoop := (crawlLoop resolveUrl web maxPages).
Local Abbreviation crawlRun := (crawlRun resolveUrl web maxPages).
Local Abbreviation crawlWebsite := (crawlWebsite resolveUrl web maxPages).
Local Abbreviation extractLinks := (extractLinks resolveUrl).

(** Every link that [extractLinks] keeps is a resolved href that starts
    with the base URL. *)
Lemma pushLink_elem (base : string) (hrefs acc : list string) (l : string) :
  l ∈ fold_left (pushLink resolveUrl base) hrefs acc ->
  l ∈ acc \/ (Js.startsWith l base = true /\ exists href, href ∈ hrefs /\ resolveUrl href base = Some l).
Proof.
  revert acc. induction hrefs as [|h hrefs IH]; intros acc; simpl; [by left|].
  intros H. apply IH in H as [Hin|(Hp & href & Hh & Hr)].
  - unfold pushLink in Hin. destruct (resolveUrl h base) as [a|] eqn:Hres; [|by left].
    destruct (Js.startsWith a base) eqn:Hsw; [|by left].
    apply elem_of_app in Hin as [?| ->%list_elem_of_singleton]; [by left|].
    right. split; [done|]. exists h. split; [left|done].
  - right. split; [done|]. exists href. split; [by right|done].
Qed.

Lemma extractLinks_spec (d : Document) (base l : string) :
  l ∈ extractLinks d base ->
  Js.startsWith l base = true /\ exists href, href ∈ doc_hrefs d /\ resolveUrl href base = Some l.
Proof.
  unfold extractLinks. rewrite setSpread_elem.
  intros H. apply pushLink_elem in H as [Hin|H]; [|done]. by apply elem_of_nil in Hin.
Qed.

Lemma crawlPage_url (n : nat) (u : string) (p : PageRecord) :
  crawlPage n u = Some p -> url p = u /\ links p = extractLinks (rawHtml p) u.
Proof.
  unfold crawlPage. destruct (web n u); [|done].
  by intros [= <-].
Qed.

Local Abbreviation Inv := (Inv resolveUrl maxPages).

Lemma Inv_initial (seed : string) : Inv seed (initialState seed).
Proof.
  split; simpl; try done.
  - lia.
  - constructor.
  - intros u. rewrite elem_of_nil. set_solver.
  - intros p Hp. by apply elem_of_nil in Hp.
  - intros u ->%list_elem_of_singleton. apply startsWith_refl.
  - intros l1 u l2 H. by destruct l1.
Qed.

Lemma Inv_step (seed : string) (st st' : CrawlState) :
  Inv seed st -> crawlIter st = Some st' -> Inv seed st'.
Proof.
  intros [Hcap Hnd Hvis Hpg Hfr Htp Hta Hrq].
  unfold crawlIter.
  destruct (toVisit st) as [|cur rest] eqn:Htv; [done|].
  destruct (length (pages st) <? maxPages) eqn:Hlt; [|done].
  apply Nat.ltb_lt in Hlt.
  assert (forall u, u ∈ rest -> Js.startsWith u seed = true) as Hrest.
  { intros u Hu. apply Hfr. by right. }
  case_bool_decide as Hcur.
  { intros [= <-]. by split. }
  destruct (crawlPage (requests st) cur) as [page|] eqn:Hcp.
  - apply crawlPage_url in Hcp as [Hurl Hlinks].
    intros [= <-]. split; simpl.
    + rewrite length_app. simpl. lia.
    + rewrite map_app. simpl. apply NoDup_app. split_and!; [done| |apply NoDup_singleton].
      intros u Hu ->%list_elem_of_singleton. apply Hcur, Hvis. by rewrite <- Hurl.
    + intros u. rewrite map_app, elem_of_app, elem_of_union, Hvis. simpl.
      rewrite list_elem_of_singleton, elem_of_singleton, Hurl. done.
    + intros p [Hp| ->%list_elem_of_singleton]%elem_of_app; [by apply Hpg|].
      rewrite Hurl. split; [apply Hfr; left|].
      intros l Hl. rewrite Hlinks in Hl.
      apply extractLinks_spec in Hl as (Hsw & href & _ & Hr). eauto.
    + intros u [Hu|Hu]%elem_of_app; [by apply Hrest|].
      apply list_elem_of_filter in Hu as [_ Hu].
      apply extractLinks_spec in Hu as (Hsw & _).
      eapply startsWith_trans; [done|]. apply Hfr. left.
    + rewrite map_app, filter_app, map_app, Htp. simpl. by rewrite Hurl.
    + intros l1 u l2 Heq.
      eapply after_success_snoc; [exact Hta| |exact Heq].
      intros v Hv ->. apply Hcur, Hvis. rewrite Htp.
      apply (list_elem_of_fmap_2 fst _ (cur, true)).
      by apply list_elem_of_filter.
    + rewrite length_app. simpl. lia.
  - intros [= <-]. split; simpl; try done.
    + rewrite filter_app, filter_cons_False, filter_nil, app_nil_r by (simpl; congruence). done.
    + intros l1 u l2 Heq.
      eapply after_success_snoc; [exact Hta| |exact Heq].
      intros v Hv ->. apply Hcur, Hvis. rewrite Htp.
      apply (list_elem_of_fmap_2 fst _ (cur, true)).
      by apply list_elem_of_filter.
    + rewrite length_app. simpl. lia.
Qed.

Lemma Inv_loop (seed : string) (fuel : nat) (st st' : CrawlState) :
  Inv seed st -> crawlLoop fuel st = Some st' -> Inv seed st' /\ crawlIter st' = None.
Proof.
  revert st. induction fuel as [|fuel IH]; intros st Hinv; simpl; [done|].
  destruct (crawlIter st) as [st1|] eqn:Hit.
  - apply IH. by eapply Inv_step.
  - by intros [= <-].
Qed.

Lemma Inv_run (seed : string) (fuel : nat) (st : CrawlState) :
  crawlRun fuel seed = Some st -> Inv seed st /\ crawlIter st = None.
Proof. apply Inv_loop, Inv_initial. Qed.

End CrawlerFacts.

Section CrawlerTermination.

Variable resolveUrl : string -> string -> option string.
Variable web : nat -> string -> option Document.
Variable maxPages : nat.

Local Abbreviation crawlIter := (crawlIter resolveUrl web maxPages).
Local Abbreviation crawlLoop := (crawlLoop resolveUrl web maxPages).
Local Abbreviation crawlRun := (crawlRun resolveUrl web maxPages).

Lemma crawlLoop_mono (fuel fuel' : nat) (st st' : CrawlState) :
  crawlLoop fuel st = Some st' -> fuel <= fuel' -> crawlLoop fuel' st = Some st'.
Proof.
  revert fuel' st. induction fuel as [|fuel IH]; intros fuel' st; simpl; [done|].
  intros H Hle. destruct fuel' as [|fuel']; [lia|]. simpl.
  destruct (crawlIter st); [|done]. apply IH; [done|lia].
Qed.

(** An iteration either shortens the frontier and keeps the pages, or adds
    one page below the cap. *)
Lemma crawlIter_measure (st st' : CrawlState) :
  crawlIter st = Some st' ->
  (length (pages st') = length (pages st) /\ length (toVisit st') < length (toVisit st))
  \/ (length (pages st') = S (length (pages st)) /\ length (pages st) < maxPages).
Proof.
  unfold crawlIter.
  destruct (toVisit st) as [|cur rest] eqn:Htv; [done|].
  destruct (length (pages st) <? maxPages) eqn:Hlt; [|done].
  apply Nat.ltb_lt in Hlt.
  case_bool_decide.
  { intros [= <-]. left. simpl. lia. }
  destruct (crawlPage resolveUrl web (requests st) cur).
  - intros [= <-]. right. simpl. rewrite length_app. simpl. lia.
  - intros [= <-]. left. simpl. lia.
Qed.

Lemma crawlLoop_terminates (k n : nat) (st : CrawlState) :
  maxPages - length (pages st) <= k -> length (toVisit st) <= n ->
  exists fuel st', crawlLoop fuel st = Some st'.
Proof.
  revert n st. induction k as [|k IHk]; intros n; induction n as [|n IHn];
    intros st Hk Hn;
    (destruct (crawlIter st) as [st1|] eqn:Hit;
     [|exists 1, st; simpl; by rewrite Hit]);
    destruct (crawlIter_measure _ _ Hit) as [[Hp Ht]|[Hp Hlt]]; try lia.
  - destruct (IHn st1) as (fuel & st' & H); [lia..|].
    exists (S fuel), st'. simpl. by rewrite Hit.
  - destruct (IHk (length (toVisit st1)) st1) as (fuel & st' & H); [lia..|].
    exists (S fuel), st'. simpl. by rewrite Hit.
  - destruct (IHn st1) as (fuel & st' & H); [lia..|].
    exists (S fuel), st'. simpl. by rewrite Hit.
  - destruct (IHk (length (toVisit st1)) st1) as (fuel & st' & H); [lia..|].
    exists (S fuel), st'. simpl. by rewrite Hit.
Qed.

Lemma crawlIter_None (st : CrawlState) :
  crawlIter st = None -> toVisit st = [] \/ maxPages <= length (pages st).
Proof.
  unfold crawlIter. destruct (toVisit st) as [|cur rest]; [by left|].
  destruct (length (pages st) <? maxPages) eqn:Hlt.
  - case_bool_decide; [done|]. by destruct (crawlPage _ _ _ _).
  - apply Nat.ltb_ge in Hlt. by right.
Qed.

End CrawlerTermination.

(** C1. For every seed URL and every page cap, the list returned by
    [crawlWebsite] has at most [maxPages] records and no two of them have
    the same URL.  (That the crawl returns is proved with its
    termination.) *)
Theorem crawl_bounded_distinct
  (resolveUrl : string -> string -> option string)
  (web : nat -> string -> option Document)
  (maxPages fuel : nat) (seed : string) (result : list PageRecord) :
  crawlWebsite resolveUrl web maxPages fuel seed = Some result ->
  length result <= maxPages /\ NoDup (map url result).
Proof.
  unfold crawlWebsite. intros H.
  destruct (crawlRun resolveUrl web maxPages fuel seed) as [st|] eqn:Hrun; [|done].
  injection H as <-.
  apply Inv_run in Hrun as [Hinv _].
  by destruct Hinv.
Qed.

Lemma crawl_bounded_distinct_witness :
  exists result,
    crawlWebsite Site.absolute Site.web 5 10 "http://a/" = Some result /\
    length result <= 5 /\ NoDup (map url result).
Proof.
  exists (default [] (crawlWebsite Site.absolute Site.web 5 10 "http://a/")).
  split; [vm_compute; reflexivity|].
  apply (crawl_bounded_distinct Site.absolute Site.web 5 10 "http://a/").
  vm_compute; reflexivity.
Defined.

(** C2 as stated fails: on the example site the page that cannot be
    fetched is requested twice, once from the home page and once more when
    the second page links to it. *)
Lemma refetch_after_failure :
  ~ (forall st, crawlRun Site.absolute Site.web 5 10 "http://a/" = Some st ->
                NoDup (map fst (trace st))).
Proof.
  intros H.
  specialize (H (default (initialState "") (crawlRun Site.absolute Site.web 5 10 "http://a/"))).
  assert (Hrun : crawlRun Site.absolute Site.web 5 10 "http://a/"
                 = Some (default (initialState "") (crawlRun Site.absolute Site.web 5 10 "http://a/")))
    by (vm_compute; reflexivity).
  specialize (H Hrun).
  assert (Htrace : map fst (trace (default (initialState "") (crawlRun Site.absolute Site.web 5 10 "http://a/")))
                   = ["http://a/"; "http://a/px"; "http://a/p"; "http://a/px"])
    by (vm_compute; reflexivity).
  rewrite Htrace in H.
  apply NoDup_cons in H as [_ H]. apply NoDup_cons in H as [Hn _].
  apply Hn. right. left.
Qed.

(** C2, amended.  During a crawl every URL is fetched successfully at most
    once, and a URL is never requested again after a successful fetch.  (A
    URL whose fetch fails is not marked visited, and is requested again
    when another page links to it.) *)
Theorem fetched_once_after_success
  (resolveUrl : string -> string -> option string)
  (web : nat -> string -> option Document)
  (maxPages fuel : nat) (seed : string) (st : CrawlState) :
  crawlRun resolveUrl web maxPages fuel seed = Some st ->
  NoDup (map fst (filter (fun a => snd a = true) (trace st)))
  /\ (forall l1 u l2, trace st = l1 ++ (u, true) :: l2 -> u ∉ map fst l2)
  /\ length (trace st) = requests st.
Proof.
  intros Hrun. apply Inv_run in Hrun as [[] _].
  split_and!; [congruence|done|done].
Qed.

Lemma fetched_once_after_success_witness :
  exists st,
    crawlRun Site.absolute Site.web 5 10 "http://a/" = Some st /\
    NoDup (map fst (filter (fun a => snd a = true) (trace st))) /\
    (forall l1 u l2, trace st = l1 ++ (u, true) :: l2 -> u ∉ map fst l2) /\
    length (trace st) = requests st.
Proof.
  exists (default (initialState "") (crawlRun Site.absolute Site.web 5 10 "http://a/")).
  split; [vm_compute; reflexivity|].
  apply (fetched_once_after_success Site.absolute Site.web 5 10 "http://a/").
  vm_compute; reflexivity.
Defined.

(** C3 as stated fails: the filter of [extractLinks] compares texts, and
    for a seed that ends with its origin the URL of another host whose
    name continues that of the seed passes it. *)
Lemma off_origin_link_recorded :
  ~ (forall result page link,
       crawlWebsite Site.absolute Site.lookalike 5 10 "http://a" = Some result ->
       page ∈ result -> link ∈ links page ->
       originOf link = originOf "http://a").
Proof.
  intros H.
  pose (result := default [] (crawlWebsite Site.absolute Site.lookalike 5 10 "http://a")).
  pose (page := default (Sample.page "" "" "") (head result)).
  assert (originOf "http://a.evil.com/" = originOf "http://a") as Ho.
  { apply (H result page).
    - vm_compute. reflexivity.
    - vm_compute. left.
    - vm_compute. left. }
  vm_compute in Ho. discriminate Ho.
Qed.

(** The other host is then crawled as a page of the site. *)
Example off_origin_page_crawled :
  map url <$> crawlWebsite Site.absolute Site.lookalike 5 10 "http://a"
  = Some ["http://a"; "http://a.evil.com/"; "http://a/p"]
  /\ (links <$> head (default [] (crawlWebsite Site.absolute Site.lookalike 5 10 "http://a")))
     = Some ["http://a.evil.com/"; "http://a/p"]
  /\ originOf "http://a.evil.com/" = "http://a.evil.com"
  /\ originOf "http://a" = "http://a".
Proof. split_and!; vm_compute; reflexivity. Qed.

(** The origin of a URL is a prefix of the URL. *)
Lemma isPrefix_untilSlash (l : list ascii) : isPrefix (untilSlash l) l = true.
Proof.
  induction l as [|c t IH]; [done|]. simpl.
  destruct (Ascii.eqb c "/"); [done|]. simpl. by rewrite Ascii.eqb_refl.
Qed.

Lemma isPrefix_originChars (l : list ascii) : isPrefix (originChars l) l = true.
Proof.
  induction l as [|c t IH]; [done|].
  assert (isPrefix (c :: originChars t) (c :: t) = true) as Hstep
    by (simpl; by rewrite Ascii.eqb_refl).
  assert (forall rest,
             isPrefix (":"%char :: "/"%char :: "/"%char :: untilSlash rest)
                      (":"%char :: "/"%char :: "/"%char :: rest) = true) as Hcut
    by (intros rest; simpl; apply isPrefix_untilSlash).
  cbn [originChars].
  destruct c as [[] [] [] [] [] [] [] []]; try exact Hstep.
  destruct t as [|[[] [] [] [] [] [] [] []] t]; try exact Hstep.
  destruct t as [|[[] [] [] [] [] [] [] []] t]; try exact Hstep.
  apply Hcut.
Qed.

Lemma isPrefix_startsWith (p : list ascii) (s : string) :
  isPrefix p (Js.chars s) = true -> Js.startsWith s (Js.str p) = true.
Proof.
  unfold Js.startsWith. revert s. induction p as [|c p IH]; intros s; [by destruct s|].
  destruct s as [|x s]; [done|]. simpl.
  intros [Hc Hp]%andb_true_iff. apply Ascii.eqb_eq in Hc as ->.
  destruct (Ascii.ascii_dec x x); [|done]. by apply IH.
Qed.

Lemma startsWith_origin (u : string) : Js.startsWith u (originOf u) = true.
Proof. apply isPrefix_startsWith, isPrefix_originChars. Qed.

Lemma startsWith_chars (s p : string) :
  Js.startsWith s p = true -> exists t, Js.chars s = Js.chars p ++ t.
Proof.
  unfold Js.startsWith. revert s. induction p as [|c p IH]; intros s.
  - intros _. by exists (Js.chars s).
  - destruct s as [|x s]; [done|]. simpl.
    destruct (Ascii.ascii_dec c x) as [->|]; [|done].
    intros [t Ht]%IH. exists t. simpl. by rewrite <- Ht.
Qed.

Lemma isPrefix_app (p t : list ascii) : isPrefix p (p ++ t) = true.
Proof. induction p as [|c p IH]; [done|]. simpl. by rewrite Ascii.eqb_refl. Qed.

(** Behind its slash an origin does not change with what follows. *)
Lemma untilSlash_extension (l t : list ascii) :
  isPrefix (untilSlash l ++ ["/"%char]) l = true ->
  untilSlash (l ++ t) = untilSlash l.
Proof.
  induction l as [|c l IH]; [done|]. simpl.
  destruct (Ascii.eqb c "/"); [done|]. simpl.
  intros [_ Hp]%andb_true_iff. by rewrite IH.
Qed.

Lemma originChars_extension (l t : list ascii) :
  isPrefix (originChars l ++ ["/"%char]) l = true ->
  originChars (l ++ t) = originChars l.
Proof.
  induction l as [|c l IH]; [done|].
  assert (isPrefix ((c :: originChars l) ++ ["/"%char]) (c :: l) = true ->
          c :: originChars (l ++ t) = c :: originChars l) as Hstep.
  { simpl. intros [_ Hp]%andb_true_iff. by rewrite IH. }
  assert (forall rest,
             isPrefix ((":"%char :: "/"%char :: "/"%char :: untilSlash rest) ++ ["/"%char])
                      (":"%char :: "/"%char :: "/"%char :: rest) = true ->
             ":"%char :: "/"%char :: "/"%char :: untilSlash (rest ++ t)
             = ":"%char :: "/"%char :: "/"%char :: untilSlash rest) as Hcut.
  { intros rest. simpl. intros Hp. by rewrite untilSlash_extension. }
  destruct c as [[] [] [] [] [] [] [] []]; try exact Hstep.
  destruct l as [|[[] [] [] [] [] [] [] []] l]; try exact Hstep;
    [intros Hp; vm_compute in Hp; discriminate Hp|].
  destruct l as [|[[] [] [] [] [] [] [] []] l]; try exact Hstep;
    [intros Hp; vm_compute in Hp; discriminate Hp|].
  apply Hcut.
Qed.

(** A URL that starts with a seed has the origin of the seed, when the
    seed goes on behind its origin with a slash. *)
Lemma originOf_extension (link seed : string) :
  Js.startsWith link seed = true ->
  Js.startsWith seed (originOf seed +:+ "/") = true ->
  originOf link = originOf seed.
Proof.
  intros [t Ht]%startsWith_chars [t' Ht']%startsWith_chars.
  unfold originOf in *. rewrite Ht. f_equal.
  apply originChars_extension.
  rewrite chars_app, chars_str in Ht'.
  remember (originChars (Js.chars seed)) as o eqn:Ho.
  change (Js.chars "/") with ["/"%char] in Ht'.
  rewrite Ht'. apply isPrefix_app.
Qed.

(** C3, amended.  Every link of every record of a crawl is a resolved
    (absolute) URL whose text starts with the URL of its page, hence with
    the seed URL and with every prefix of the seed URL, the text of its
    origin included: the filter of [extractLinks] tests the URL of the
    current page, and that URL starts with the seed URL.  When the seed
    goes on with a slash behind its origin, every link has the origin of
    the seed. *)
Theorem links_share_seed_prefix
  (resolveUrl : string -> string -> option string)
  (web : nat -> string -> option Document)
  (maxPages fuel : nat) (seed : string) (result : list PageRecord)
  (page : PageRecord) (link : string) :
  crawlWebsite resolveUrl web maxPages fuel seed = Some result ->
  page ∈ result -> link ∈ links page ->
  (exists href, resolveUrl href (url page) = Some link)
  /\ Js.startsWith link (url page) = true
  /\ Js.startsWith link seed = true
  /\ Js.startsWith link (originOf seed) = true
  /\ (forall origin, Js.startsWith seed origin = true -> Js.startsWith link origin = true)
  /\ (Js.startsWith seed (originOf seed +:+ "/") = true ->
      originOf link = originOf seed /\ originOf (url page) = originOf seed).
Proof.
  unfold crawlWebsite. intros H Hpage Hlink.
  destruct (crawlRun resolveUrl web maxPages fuel seed) as [st|] eqn:Hrun; [|done].
  injection H as <-.
  apply Inv_run in Hrun as [[_ _ _ Hpages _ _ _ _] _].
  destruct (Hpages page Hpage) as [Hseed Hlinks].
  destruct (Hlinks link Hlink) as [Hsw Hres].
  assert (Js.startsWith link seed = true) by (by eapply startsWith_trans).
  split_and!; [done..| | |].
  - eapply startsWith_trans; [done|]. apply startsWith_origin.
  - intros origin Ho. by eapply startsWith_trans.
  - intros Hslash. split; by apply originOf_extension.
Qed.

Lemma links_share_seed_prefix_witness :
  exists result page,
    crawlWebsite Site.absolute Site.web 5 10 "http://a/" = Some result /\
    page ∈ result /\ "http://a/px" ∈ links page /\
    Js.startsWith "http://a/px" "http://a/" = true /\
    Js.startsWith "http://a/px" (originOf "http://a/") = true /\
    originOf "http://a/px" = originOf "http://a/".
Proof.
  pose (result := default [] (crawlWebsite Site.absolute Site.web 5 10 "http://a/")).
  assert (Hrun : crawlWebsite Site.absolute Site.web 5 10 "http://a/" = Some result)
    by (vm_compute; reflexivity).
  pose (page := default (Build_PageRecord "" (Site.document "" []) "" "" "" (fun _ => []) [] [] [] 0)
                        (head result)).
  assert (Hpage : page ∈ result) by (vm_compute; left).
  assert (Hlink : "http://a/px" ∈ links page) by (vm_compute; left).
  destruct (links_share_seed_prefix Site.absolute Site.web 5 10 "http://a/"
              result page "http://a/px" Hrun Hpage Hlink)
    as (_ & _ & Hseed & Horigin & _ & Hsame).
  exists result, page. split_and!; [done..|].
  by apply Hsame.
Defined.

Example origin_of_the_seed : originOf "http://a/" = "http://a".
Proof. reflexivity. Qed.

(** C9. [crawlWebsite] terminates on every input: with enough iterations
    allowed the loop returns, after at most [maxPages] successful fetches,
    and when it stops either the cap is reached (whatever is left in the
    frontier) or the frontier is exhausted. *)
Theorem crawl_terminates
  (resolveUrl : string -> string -> option string)
  (web : nat -> string -> option Document)
  (maxPages : nat) (seed : string) :
  exists fuel st,
    (forall fuel', fuel <= fuel' ->
       crawlRun resolveUrl web maxPages fuel' seed = Some st
       /\ crawlWebsite resolveUrl web maxPages fuel' seed = Some (pages st))
    /\ length (filter (fun a => snd a = true) (trace st)) = length (pages st)
    /\ length (pages st) <= maxPages
    /\ (length (pages st) = maxPages \/ toVisit st = []).
Proof.
  destruct (crawlLoop_terminates resolveUrl web maxPages
              (maxPages - length (pages (initialState seed)))
              (length (toVisit (initialState seed))) (initialState seed))
    as (fuel & st & Hloop); [done..|].
  exists fuel, st.
  pose proof (Inv_run resolveUrl web maxPages seed fuel st Hloop)
    as [[Hcap _ _ _ _ Htp _ _] Hstop].
  apply crawlIter_None in Hstop.
  split_and!.
  - intros fuel' Hle.
    assert (crawlRun resolveUrl web maxPages fuel' seed = Some st) as Hrun
      by (by eapply crawlLoop_mono).
    split; [done|]. unfold crawlWebsite. by rewrite Hrun.
  - apply (f_equal length) in Htp. by rewrite !length_map in Htp.
  - done.
  - destruct Hstop; [by right|left; lia].
Qed.

(** The two ways of stopping, on the example site: with a cap of one page
    the crawl stops with two URLs left in the frontier; with a cap of five
    it stops below the cap on an empty frontier. *)
Example crawl_stops_at_cap :
  (fun st => (length (pages st), toVisit st))
    <$> crawlRun Site.absolute Site.web 1 10 "http://a/"
  = Some (1, ["http://a/px"; "http://a/p"]).
Proof. vm_compute; reflexivity. Qed.

Example crawl_stops_on_empty_frontier :
  (fun st => (length (pages st), toVisit st))
    <$> crawlRun Site.absolute Site.web 5 10 "http://a/"
  = Some (2, []).
Proof. vm_compute; reflexivity. Qed.

(** ** The whole analysis *)

(** Without pages no pattern is compiled: the density report is built for
    every keyword list. *)
Lemma densityFrom_no_pages (keywords : list string) (density : gmap string KeywordReport) :
  exists density', densityFrom density [] keywords = Returns density'.
Proof.
  revert density. induction keywords as [|k keywords IH]; intros density; simpl; eauto.
Qed.

Lemma analyzePages_no_pages (keywords : list string) :
  exists analysis, analyzePages [] keywords = Returns analysis.
Proof.
  unfold analyzePages, analyzeKeywordDensity.
  destruct (densityFrom_no_pages keywords ∅) as [d ->]. simpl. eauto.
Qed.

(** An iteration on a URL that cannot be fetched drops the URL from the
    frontier, records the failed attempt and keeps the pages collected so
    far. *)
Lemma crawlIter_failure
  (resolveUrl : string -> string -> option string)
  (web : nat -> string -> option Document)
  (maxPages : nat) (st : CrawlState) (currentUrl : string) (rest : list string) :
  toVisit st = currentUrl :: rest ->
  length (pages st) < maxPages ->
  currentUrl ∉ visited st ->
  web (requests st) currentUrl = None ->
  crawlIter resolveUrl web maxPages st
  = Some {| pages := pages st; visited := visited st; toVisit := rest;
            requests := S (requests st);
            trace := trace st ++ [(currentUrl, false)] |}.
Proof.
  intros Htv Hlt Hvis Hweb. unfold crawlIter, crawlPage. rewrite Htv.
  apply Nat.ltb_lt in Hlt. rewrite Hlt.
  rewrite bool_decide_eq_false_2 by done. by rewrite Hweb.
Qed.

Lemma crawl_unreachable_seed
  (resolveUrl : string -> string -> option string)
  (web : nat -> string -> option Document)
  (maxPages fuel : nat) (seed : string) :
  web 0 seed = None -> 2 <= fuel ->
  crawlWebsite resolveUrl web maxPages fuel seed = Some [].
Proof.
  intros Hweb Hfuel. unfold crawlWebsite, crawlRun.
  destruct fuel as [|[|fuel]]; [lia..|].
  cbn [crawlLoop].
  destruct (decide (0 < maxPages)) as [Hpos|Hzero].
  - rewrite (crawlIter_failure resolveUrl web maxPages (initialState seed) seed [])
      by (done || set_solver).
    done.
  - unfold crawlIter at 1. simpl.
    destruct (0 <? maxPages) eqn:Hlt; [apply Nat.ltb_lt in Hlt; lia|]. done.
Qed.

(** C8 as stated fails: against a site that does not answer at all, with
    the language model client available, [analyzeWebsite] does not throw. *)
Lemma unreachable_seed_is_not_an_error :
  ~ (Site.unreachable 0 "http://a/" = None ->
     exists message,
       analyzeWebsite Site.absolute Site.unreachable 5 None (fun _ => inl "{}")
                      10 "http://a/" ["seo"]
       = Some (Throws message)).
Proof.
  intros H. destruct (H eq_refl) as [message Hm].
  vm_compute in Hm. discriminate Hm.
Qed.

(** C8, amended.  A URL that cannot be fetched, the seed included, is
    skipped with a warning and the crawl goes on.  When the seed cannot be
    fetched the crawl returns no page, and the analysis, rather than
    aborting, returns a report on zero pages (provided the language model
    client can be created). *)
Theorem fetch_failures_are_skipped
  (resolveUrl : string -> string -> option string)
  (web : nat -> string -> option Document)
  (maxPages : nat) (complete : string -> string + string)
  (fuel : nat) (seed : string) (keywords : list string) :
  web 0 seed = None -> 2 <= fuel ->
  crawlWebsite resolveUrl web maxPages fuel seed = Some []
  /\ (exists report,
        analyzeWebsite resolveUrl web maxPages None complete fuel seed keywords
        = Some (Returns report)
        /\ pagesAnalyzed report = 0)
  /\ (forall st currentUrl rest,
        toVisit st = currentUrl :: rest ->
        length (pages st) < maxPages ->
        currentUrl ∉ visited st ->
        web (requests st) currentUrl = None ->
        exists st',
          crawlIter resolveUrl web maxPages st = Some st'
          /\ pages st' = pages st /\ toVisit st' = rest
          /\ trace st' = trace st ++ [(currentUrl, false)]).
Proof.
  intros Hweb Hfuel.
  pose proof (crawl_unreachable_seed resolveUrl web maxPages fuel seed Hweb Hfuel) as Hcrawl.
  split_and!.
  - done.
  - unfold analyzeWebsite. rewrite Hcrawl.
    destruct (analyzePages_no_pages keywords) as [analysis ->].
    unfold generateAiInsights, initializeOpenAI. simpl.
    destruct (complete _); eauto.
  - intros st currentUrl rest Htv Hlt Hvis Hfail.
    eexists. split; [by apply crawlIter_failure|]. done.
Qed.

Lemma fetch_failures_are_skipped_witness :
  Site.unreachable 0 "http://a/" = None /\ 2 <= 10 /\
  crawlWebsite Site.absolute Site.unreachable 5 10 "http://a/" = Some [].
Proof.
  split; [reflexivity|]. split; [lia|].
  apply (fetch_failures_are_skipped Site.absolute Site.unreachable 5
           (fun _ => inl "{}") 10 "http://a/" ["seo"]); [reflexivity|lia].
Defined.

(** ** Meta tags *)

Lemma elem_of_flat_map {A B : Type} (f : A -> list B) (l : list A) (x : B) :
  x ∈ flat_map f l <-> exists y, y ∈ l /\ x ∈ f y.
Proof.
  rewrite list_elem_of_In, in_flat_map.
  by setoid_rewrite list_elem_of_In.
Qed.

(** Two equal strings read the same from the end. *)
Lemma append_reversed (a b s t : string) :
  a +:+ s = b +:+ t ->
  rev (Js.chars s) ++ rev (Js.chars a) = rev (Js.chars t) ++ rev (Js.chars b).
Proof.
  intros H. apply (f_equal (fun x => rev (Js.chars x))) in H.
  by rewrite !chars_app, !rev_app_distr in H.
Qed.

Lemma rev_chars_inj (a b : string) : rev (Js.chars a) = rev (Js.chars b) -> a = b.
Proof.
  intros H. apply chars_inj. apply (f_equal (@rev ascii)) in H.
  by rewrite !rev_involutive in H.
Qed.

(** Decide an equation between two messages that end with known texts. *)
Local Ltac message_eq H :=
  apply append_reversed in H; simpl in H;
  first [ discriminate H
        | injection H as H; apply rev_chars_inj in H ].

Lemma analyzeMetaTags_from (pages : list PageRecord) (metaTags : MetaTags) :
  issues (fold_left metaTagsOfPage pages metaTags)
    = issues metaTags ++ flat_map issuesOf pages
  /\ suggestions (fold_left metaTagsOfPage pages metaTags)
    = suggestions metaTags ++ flat_map suggestionsOf pages.
Proof.
  revert metaTags. induction pages as [|p pages IH]; intros metaTags; simpl.
  - by rewrite !app_nil_r.
  - destruct (IH (metaTagsOfPage metaTags p)) as [-> ->].
    change (issues (metaTagsOfPage metaTags p)) with (issues metaTags ++ issuesOf p).
    change (suggestions (metaTagsOfPage metaTags p))
      with (suggestions metaTags ++ suggestionsOf p).
    split; by rewrite <- app_assoc.
Qed.

Lemma analyzeMetaTags_issues (pages : list PageRecord) :
  issues (analyzeMetaTags pages) = flat_map issuesOf pages.
Proof. apply (analyzeMetaTags_from pages emptyMetaTags). Qed.

Lemma analyzeMetaTags_suggestions (pages : list PageRecord) :
  suggestions (analyzeMetaTags pages) = flat_map suggestionsOf pages.
Proof. apply (analyzeMetaTags_from pages emptyMetaTags). Qed.

Lemma title_too_long_of_page (page : PageRecord) (u : string) :
  u +:+ ": Title too long" ∈ issuesOf page
  <-> url page = u /\ 60 < String.length (title page).
Proof.
  unfold issuesOf, metaTagsOfPage. cbn [issues emptyMetaTags app].
  destruct (String.length (title page) =? 0);
  destruct (Nat.ltb_spec 60 (String.length (title page))) as [H60|H60];
  destruct (String.length (description page) =? 0);
  destruct (Nat.ltb_spec 155 (String.length (description page))) as [D155|D155];
  cbn [app]; rewrite ?elem_of_cons, ?elem_of_nil;
  (split;
   [ intros H; repeat (destruct H as [H|H]); try done;
     symmetry in H; message_eq H; by split
   | intros [<- H]; try lia; auto ]).
Qed.

Lemma description_too_long_of_page (page : PageRecord) (u : string) :
  u +:+ ": Description too long" ∈ issuesOf page
  <-> url page = u /\ 155 < String.length (description page).
Proof.
  unfold issuesOf, metaTagsOfPage. cbn [issues emptyMetaTags app].
  destruct (String.length (title page) =? 0);
  destruct (Nat.ltb_spec 60 (String.length (title page))) as [H60|H60];
  destruct (String.length (description page) =? 0);
  destruct (Nat.ltb_spec 155 (String.length (description page))) as [D155|D155];
  cbn [app]; rewrite ?elem_of_cons, ?elem_of_nil;
  (split;
   [ intros H; repeat (destruct H as [H|H]); try done;
     symmetry in H; message_eq H; by split
   | intros [<- H]; try lia; auto ]).
Qed.

(** In the report on a list of pages, the message that a title is too long
    is present for a URL exactly when a page of that URL has a title of
    more than 60 characters; likewise for descriptions and 155. *)
Lemma too_long_issues (pages : list PageRecord) (u : string) :
  (u +:+ ": Title too long" ∈ issues (analyzeMetaTags pages)
   <-> exists page, page ∈ pages /\ url page = u /\ 60 < String.length (title page))
  /\ (u +:+ ": Description too long" ∈ issues (analyzeMetaTags pages)
   <-> exists page, page ∈ pages /\ url page = u /\ 155 < String.length (description page)).
Proof.
  rewrite analyzeMetaTags_issues. split.
  - rewrite elem_of_flat_map. by setoid_rewrite title_too_long_of_page.
  - rewrite elem_of_flat_map. by setoid_rewrite description_too_long_of_page.
Qed.

(** C6. A title of exactly 60 characters and a description of exactly 155
    characters produce no "too long" issue for the page; a title of 61
    characters and a description of 156 characters produce the
    corresponding issue, in the report on any list that has the page. *)
Theorem too_long_boundaries (page : PageRecord) :
  (String.length (title page) = 60 ->
   url page +:+ ": Title too long" ∉ issues (analyzeMetaTags [page]))
  /\ (String.length (description page) = 155 ->
      url page +:+ ": Description too long" ∉ issues (analyzeMetaTags [page]))
  /\ (String.length (title page) = 61 ->
      forall pages, page ∈ pages ->
        url page +:+ ": Title too long" ∈ issues (analyzeMetaTags pages))
  /\ (String.length (description page) = 156 ->
      forall pages, page ∈ pages ->
        url page +:+ ": Description too long" ∈ issues (analyzeMetaTags pages)).
Proof.
  split_and!.
  - intros Hlen Hin. apply too_long_issues in Hin as (p & Hp & _ & Hlong).
    apply list_elem_of_singleton in Hp as ->. lia.
  - intros Hlen Hin. apply too_long_issues in Hin as (p & Hp & _ & Hlong).
    apply list_elem_of_singleton in Hp as ->. lia.
  - intros Hlen pages Hin. apply too_long_issues. exists page. split_and!; [done..|lia].
  - intros Hlen pages Hin. apply too_long_issues. exists page. split_and!; [done..|lia].
Qed.

Lemma too_long_boundaries_witness :
  (String.length (Sample.filler 60) = 60 /\
   "http://a/: Title too long"
     ∉ issues (analyzeMetaTags [Sample.page (Sample.filler 60) (Sample.filler 155) "text"]))
  /\ (String.length (Sample.filler 155) = 155 /\
   "http://a/: Description too long"
     ∉ issues (analyzeMetaTags [Sample.page (Sample.filler 60) (Sample.filler 155) "text"]))
  /\ (String.length (Sample.filler 61) = 61 /\
   "http://a/: Title too long"
     ∈ issues (analyzeMetaTags [Sample.page (Sample.filler 61) (Sample.filler 156) "text"]))
  /\ (String.length (Sample.filler 156) = 156 /\
   "http://a/: Description too long"
     ∈ issues (analyzeMetaTags [Sample.page (Sample.filler 61) (Sample.filler 156) "text"])).
Proof.
  pose proof (too_long_boundaries
                (Sample.page (Sample.filler 60) (Sample.filler 155) "text"))
    as (Ht & Hd & _ & _).
  pose proof (too_long_boundaries
                (Sample.page (Sample.filler 61) (Sample.filler 156) "text"))
    as (_ & _ & Ht' & Hd').
  split_and!.
  - reflexivity.
  - apply Ht. reflexivity.
  - reflexivity.
  - apply Hd. reflexivity.
  - reflexivity.
  - apply Ht'; [reflexivity|left].
  - reflexivity.
  - apply Hd'; [reflexivity|left].
Defined.

(** A title suggestion is made only for a title of more than 60
    characters, while a description suggestion is made for an empty
    description as well as for one of more than 155 characters. *)
Lemma suggestions_of_page (page : PageRecord) :
  map sg_type (suggestionsOf page)
  = (if 60 <? String.length (title page) then ["title"] else [])
    ++ (if (155 <? String.length (description page))
           || (String.length (description page) =? 0)
        then ["description"] else []).
Proof.
  unfold suggestionsOf, metaTagsOfPage. cbn [suggestions emptyMetaTags app].
  by destruct (60 <? _), (_ || _).
Qed.

(** C7 is contradicted by the code on a page without a title: the missing
    title is reported as an issue but no title suggestion is made, whereas
    the missing description of the same page gets both. *)
Example missing_title_gets_no_suggestion :
  let report := analyzeMetaTags [Sample.page "" "" "A page about garden tools"] in
  issues report = ["http://a/: Missing title"; "http://a/: Missing description"]
  /\ map sg_type (suggestions report) = ["description"].
Proof. split; vm_compute; reflexivity. Qed.

(** ** Keywords as patterns *)




Lemma lowerChar_syntax (a : ascii) :
  RegExp.isSyntaxChar (Js.lowerChar a) = RegExp.isSyntaxChar a.
Proof. destruct a as [[] [] [] [] [] [] [] []]; reflexivity. Qed.

Lemma chars_toLowerCase (s : string) :
  Js.chars (Js.toLowerCase s) = map Js.lowerChar (Js.chars s).
Proof. unfold Js.toLowerCase, Js.chars, Js.str. apply String.list_ascii_of_string_of_list_ascii. Qed.

Lemma chars_length (s : string) : length (Js.chars s) = String.length s.
Proof. induction s as [|c s IH]; simpl; [done|]. by f_equal. Qed.



(** A character that is no syntax character is read as a pattern
    character. *)
Lemma parse_pattern_char (stack : list RegExp.Frame) (cur : RegExp.Frame)
  (c : ascii) (rest : list ascii) :
  RegExp.isSyntaxChar c = false ->
  RegExp.parse stack cur (c :: rest)
  = RegExp.parse stack (RegExp.pushTerm cur (RegExp.Chr c)) rest.
Proof.
  destruct c as [[] [] [] [] [] [] [] []]; intros H; first [discriminate H | reflexivity].
Qed.

Lemma parse_literal (l : list ascii) (cur : RegExp.Frame) :
  forallb (fun c => negb (RegExp.isSyntaxChar c)) l = true ->
  RegExp.parse [] cur l
  = Returns (RegExp.closeFrame
               {| RegExp.alternatives := RegExp.alternatives cur;
                  RegExp.terms := RegExp.terms cur ++ map RegExp.Chr l;
                  RegExp.quantifiable := RegExp.quantifiable cur || negb (bool_decide (l = [])) |}).
Proof.
  revert cur. induction l as [|c l IH]; intros cur Hl.
  - simpl. rewrite app_nil_r, orb_false_r. by destruct cur.
  - simpl in Hl. apply andb_true_iff in Hl as [Hc Hl]. apply negb_true_iff in Hc.
    rewrite parse_pattern_char by done. rewrite IH by done.
    simpl. rewrite <- app_assoc. simpl. by rewrite orb_true_r.
Qed.

Lemma compile_literal (keyword : string) :
  isLiteral keyword = true ->
  RegExp.compile (Js.toLowerCase keyword)
  = Returns (RegExp.sequence (map RegExp.Chr (Js.chars (Js.toLowerCase keyword)))).
Proof.
  intros Hlit. unfold RegExp.compile. rewrite parse_literal.
  - reflexivity.
  - rewrite chars_toLowerCase. unfold isLiteral in Hlit.
    rewrite forallb_forall in *. intros c [x [<- Hx]]%in_map_iff.
    rewrite lowerChar_syntax. by apply Hlit.
Qed.






(** ** Rounding to the nearest double *)

Lemma pow2_pos (e : Z) : (0 < 2 ^ e)%Q.
Proof. by apply Qpower_0_lt. Qed.

Lemma pow2_le (a b : Z) : (a <= b)%Z -> (2 ^ a <= 2 ^ b)%Q.
Proof. intros H. by apply Qpower_le_compat_l. Qed.

Lemma pow2_plus (a b : Z) : (2 ^ (a + b) == 2 ^ a * 2 ^ b)%Q.
Proof. by apply Qpower_plus. Qed.

Lemma pow2_Z (n : Z) : (0 <= n)%Z -> (inject_Z (2 ^ n) == 2 ^ n)%Q.
Proof. intros H. by rewrite Zpower_Qpower. Qed.


Lemma pow2_succ (a : Z) : (2 ^ (a + 1) == 2 * 2 ^ a)%Q.
Proof. rewrite pow2_plus. change (2 ^ 1)%Q with 2%Q. ring. Qed.

Lemma pow2_minus (a b : Z) : (2 ^ (a - b) * 2 ^ b == 2 ^ a)%Q.
Proof. rewrite <- pow2_plus. by replace (a - b + b)%Z with a by lia. Qed.

Lemma exponentOf_spec (x : Q) :
  (0 < x)%Q -> (2 ^ Js.exponentOf x <= x)%Q /\ (x < 2 ^ (Js.exponentOf x + 1))%Q.
Proof.
  intros Hx. destruct x as [a b]. unfold Js.exponentOf. cbn [Qnum Qden].
  assert (0 < a)%Z as Ha by (unfold Qlt in Hx; simpl in Hx; lia).
  pose proof (Z.log2_spec a Ha) as [Ha1 Ha2].
  pose proof (Z.log2_spec (Zpos b) (Pos2Z.is_pos b)) as [Hb1 Hb2].
  pose proof (Z.log2_nonneg a) as Hla.
  pose proof (Z.log2_nonneg (Zpos b)) as Hlb.
  set (la := Z.log2 a) in *. set (lb := Z.log2 (Zpos b)) in *.
  assert ((a # b) * inject_Z (Zpos b) == inject_Z a)%Q as Hab.
  { rewrite (Qmake_Qdiv a b). field. intros H. discriminate H. }
  assert (inject_Z (2 ^ la) <= inject_Z a)%Q as Qa1 by (by rewrite <- Zle_Qle).
  assert (inject_Z a < inject_Z (2 ^ Z.succ la))%Q as Qa2 by (by rewrite <- Zlt_Qlt).
  assert (inject_Z (2 ^ lb) <= inject_Z (Zpos b))%Q as Qb1 by (by rewrite <- Zle_Qle).
  assert (inject_Z (Zpos b) < inject_Z (2 ^ Z.succ lb))%Q as Qb2 by (by rewrite <- Zlt_Qlt).
  unfold Z.succ in *.
  rewrite pow2_Z in Qa1, Qa2, Qb1, Qb2 by lia.
  rewrite pow2_succ in Qa2, Qb2.
  pose proof (pow2_pos la) as HA. pose proof (pow2_pos lb) as HB.
  pose proof (pow2_minus la lb) as HP.
  pose proof (pow2_pos (la - lb)) as HPpos.
  set (A := (2 ^ la)%Q) in *. set (B := (2 ^ lb)%Q) in *.
  set (v := inject_Z a) in *. set (w := inject_Z (Zpos b)) in *.
  set (x := a # b) in *.
  destruct (Qle_bool (2 ^ (la - lb)) x) eqn:Htest.
  - apply Qle_bool_iff in Htest. split; [done|].
    rewrite pow2_succ. set (P := (2 ^ (la - lb))%Q) in *.
    apply (Qmult_lt_r _ _ w); [lra|].
    rewrite Hab.
    apply Qlt_le_trans with (2 * A)%Q; [done|].
    nra.
  - assert (x < 2 ^ (la - lb))%Q as Hlt.
    { apply Qnot_le_lt. intros H. apply Qle_bool_iff in H. congruence. }
    replace (la - lb - 1 + 1)%Z with (la - lb)%Z by lia. split; [|done].
    pose proof (pow2_succ (la - lb - 1)) as H1.
    replace (la - lb - 1 + 1)%Z with (la - lb)%Z in H1 by lia.
    pose proof (pow2_pos (la - lb - 1)) as HQpos.
    set (P := (2 ^ (la - lb))%Q) in *. set (R := (2 ^ (la - lb - 1))%Q) in *.
    apply (Qmult_le_r _ _ w); [lra|].
    rewrite Hab.
    apply Qle_trans with A; [|done].
    nra.
Qed.

Lemma exponent_unique (x : Q) (e e' : Z) :
  (2 ^ e <= x)%Q -> (x < 2 ^ (e + 1))%Q -> (2 ^ e' <= x)%Q -> (x < 2 ^ (e' + 1))%Q -> e = e'.
Proof.
  intros H1 H2 H3 H4.
  assert (2 ^ e < 2 ^ (e' + 1))%Q as Ha by (eapply Qle_lt_trans; eauto).
  assert (2 ^ e' < 2 ^ (e + 1))%Q as Hb by (eapply Qle_lt_trans; eauto).
  apply Qpower_lt_compat_l_inv in Ha; [|done].
  apply Qpower_lt_compat_l_inv in Hb; [|done]. lia.
Qed.

Lemma exponentOf_mono (x y : Q) :
  (0 < x)%Q -> (x <= y)%Q -> (Js.exponentOf x <= Js.exponentOf y)%Z.
Proof.
  intros Hx Hxy.
  destruct (exponentOf_spec x Hx) as [H1 H2].
  destruct (exponentOf_spec y) as [H3 H4]; [lra|].
  assert (2 ^ Js.exponentOf x < 2 ^ (Js.exponentOf y + 1))%Q as H by lra.
  apply Qpower_lt_compat_l_inv in H; [|done]. lia.
Qed.

(** The nearest integer *)
Lemma nearestEven_cases (x : Q) :
  (Js.nearestEven x = Qfloor x /\ (x - inject_Z (Qfloor x) <= 1 # 2)%Q)
  \/ (Js.nearestEven x = (Qfloor x + 1)%Z /\ (1 # 2 <= x - inject_Z (Qfloor x))%Q).
Proof.
  unfold Js.nearestEven.
  destruct (Qcompare_spec (x - inject_Z (Qfloor x)) (1 # 2)) as [H|H|H].
  - destruct (Z.even (Qfloor x)); [left|right]; split; try done; lra.
  - left. split; [done|lra].
  - right. split; [done|lra].
Qed.

Lemma nearestEven_Z (k : Z) : Js.nearestEven (inject_Z k) = k.
Proof.
  unfold Js.nearestEven. rewrite Qfloor_Z.
  destruct (Qcompare_spec (inject_Z k - inject_Z k) (1 # 2)) as [H|H|H]; [lra|done|lra].
Qed.

Lemma nearestEven_mono (x y : Q) :
  (x <= y)%Q -> (Js.nearestEven x <= Js.nearestEven y)%Z.
Proof.
  intros Hxy.
  pose proof (Qfloor_resp_le x y Hxy) as Hf.
  pose proof (Qfloor_le x) as Hx1. pose proof (Qlt_floor x) as Hx2.
  pose proof (Qfloor_le y) as Hy1. pose proof (Qlt_floor y) as Hy2.
  destruct (Z.eq_dec (Qfloor x) (Qfloor y)) as [Heq|Hne].
  - unfold Js.nearestEven. rewrite Heq.
    destruct (Qcompare_spec (x - inject_Z (Qfloor y)) (1 # 2)) as [H|H|H];
      destruct (Qcompare_spec (y - inject_Z (Qfloor y)) (1 # 2)) as [H'|H'|H'];
      try destruct (Z.even (Qfloor y)); try lia; exfalso; lra.
  - destruct (nearestEven_cases x) as [[-> _]|[-> _]];
      destruct (nearestEven_cases y) as [[-> _]|[-> _]]; lia.
Qed.

Lemma nearestEven_ge (x : Q) (k : Z) : (inject_Z k <= x)%Q -> (k <= Js.nearestEven x)%Z.
Proof. intros H. rewrite <- (nearestEven_Z k). by apply nearestEven_mono. Qed.

Lemma nearestEven_le (x : Q) (k : Z) : (x <= inject_Z k)%Q -> (Js.nearestEven x <= k)%Z.
Proof. intros H. rewrite <- (nearestEven_Z k). by apply nearestEven_mono. Qed.

Lemma nearestDouble_mono (x y : Q) :
  (0 < x)%Q -> (x <= y)%Q -> (Js.nearestDouble x <= Js.nearestDouble y)%Q.
Proof.
  intros Hx Hxy. unfold Js.nearestDouble.
  pose proof (exponentOf_mono x y Hx Hxy) as He.
  destruct (exponentOf_spec x Hx) as [Hx1 Hx2].
  destruct (exponentOf_spec y) as [Hy1 Hy2]; [lra|].
  set (ex := Js.exponentOf x) in *. set (ey := Js.exponentOf y) in *.
  set (qx := Z.max (ex - 52) (-1074)). set (qy := Z.max (ey - 52) (-1074)).
  pose proof (pow2_pos qx) as Hux. pose proof (pow2_pos qy) as Huy.
  destruct (Z.eq_dec qx qy) as [Heq|Hne].
  - rewrite Heq. apply Qmult_le_compat_r; [|lra].
    rewrite <- Zle_Qle. apply nearestEven_mono.
    apply Qmult_le_compat_r; [done|]. apply Qinv_le_0_compat. lra.
  - assert (qx < qy)%Z as Hlt by lia.
    assert (qy = ey - 52)%Z as Hqy by lia.
    assert (0 <= ey - qx)%Z as Hk by lia.
    apply Qle_trans with (2 ^ ey)%Q.
    + (* the double of x is at most 2^ey *)
      pose proof (pow2_minus ey qx) as Hsplit.
      rewrite <- Hsplit. apply Qmult_le_compat_r; [|lra].
      pose proof (pow2_Z (ey - qx) Hk) as HZ.
      rewrite <- HZ. rewrite <- Zle_Qle. apply nearestEven_le. rewrite HZ.
      apply Qle_shift_div_r; [done|]. rewrite Hsplit.
      apply Qle_trans with (2 ^ (ex + 1))%Q; [lra|]. apply pow2_le. lia.
    + pose proof (pow2_minus ey qy) as Hsplit.
      rewrite <- Hsplit at 1. apply Qmult_le_compat_r; [|lra].
      assert (0 <= ey - qy)%Z as Hk' by lia.
      pose proof (pow2_Z (ey - qy) Hk') as HZ.
      rewrite <- HZ. rewrite <- Zle_Qle. apply nearestEven_ge. rewrite HZ.
      apply Qle_shift_div_l; [done|]. by rewrite Hsplit.
Qed.

Lemma nearestDouble_nonneg (x : Q) : (0 <= x)%Q -> (0 <= Js.nearestDouble x)%Q.
Proof.
  intros Hx. unfold Js.nearestDouble.
  pose proof (pow2_pos (Z.max (Js.exponentOf x - 52) (-1074))) as Hu.
  apply Qmult_le_0_compat; [|lra].
  change 0%Q with (inject_Z 0). rewrite <- Zle_Qle. apply nearestEven_ge.
  apply Qle_shift_div_l; [done|]. change (inject_Z 0) with 0%Q. lra.
Qed.

Lemma double_nonneg (x : Q) : (0 <= x)%Q -> (0 <= Js.double x)%Q.
Proof.
  intros Hx. unfold Js.double. destruct x as [[|p|p] d]; cbn [Qnum].
  - done.
  - rewrite Qred_correct. by apply nearestDouble_nonneg.
  - exfalso. revert Hx. unfold Qle. simpl. lia.
Qed.

Lemma double_mono (x y : Q) : (0 <= x)%Q -> (x <= y)%Q -> (Js.double x <= Js.double y)%Q.
Proof.
  intros Hx Hxy.
  assert (0 <= y)%Q as Hy by lra.
  unfold Js.double at 1. destruct x as [[|p|p] d] eqn:Ex; cbn [Qnum].
  - by apply double_nonneg.
  - rewrite Qred_correct. rewrite <- Ex in *.
    assert (0 < x)%Q as Hpos by (rewrite Ex; reflexivity).
    unfold Js.double. destruct y as [[|q|q] d'] eqn:Ey; cbn [Qnum].
    + exfalso. rewrite Ex in Hxy. revert Hxy. unfold Qle. simpl. lia.
    + rewrite Qred_correct. rewrite <- Ey. apply nearestDouble_mono; [done|]. by rewrite Ey.
    + exfalso. revert Hy. unfold Qle. simpl. lia.
  - exfalso. revert Hx. unfold Qle. simpl. lia.
Qed.

Lemma double_1 : Js.double 1 = 1%Q.
Proof. vm_compute. reflexivity. Qed.
Lemma double_100 : Js.double 100 = 100%Q.
Proof. vm_compute. reflexivity. Qed.

(** ** Keyword density *)



Lemma densityFrom_spec (pages : list PageRecord) (keywords : list string)
  (density density' : gmap string KeywordReport) (keyword : string) :
  densityFrom density pages keywords = Returns density' ->
  (keyword ∈ keywords -> keyword <> "__proto__" ->
   exists report,
     density' !! keyword = Some report /\ keywordReport pages keyword = Returns report)
  /\ (keyword ∉ keywords \/ keyword = "__proto__" ->
      density' !! keyword = density !! keyword).
Proof.
  revert density. induction keywords as [|k keywords IH]; intros density Hd.
  - injection Hd as <-. split; [by intros ?%elem_of_nil|done].
  - simpl in Hd.
    destruct (keywordReport pages k) as [report| |] eqn:Hk; simpl in Hd; [|done..].
    destruct (IH _ Hd) as [IH1 IH2]. split.
    + intros Hin Hproto.
      destruct (decide (keyword ∈ keywords)) as [Hlater|Hnot]; [by apply IH1|].
      apply elem_of_cons in Hin as [->|?]; [|done].
      exists report. split; [|done].
      rewrite IH2 by (by left).
      destruct (String.eqb_spec k "__proto__") as [?|_]; [done|].
      apply lookup_insert_eq.
    + intros Hout. rewrite IH2.
      * destruct (String.eqb_spec k "__proto__") as [?|Hk']; [done|].
        apply lookup_insert_ne. intros ->.
        destruct Hout as [Hout|Hout]; [|done]. apply Hout. by left.
      * destruct Hout as [Hout|Hout]; [left|by right].
        intros Hin. apply Hout. by right.
Qed.

(** Without syntax characters in the keywords the report is built. *)
Lemma tallyPages_literal (keyword : string) (pages : list PageRecord) (tally : Tally) :
  isLiteral keyword = true -> exists tally', tallyPages keyword tally pages = Returns tally'.
Proof.
  intros Hlit. revert tally. induction pages as [|page pages IH]; intros tally; simpl; [eauto|].
  unfold tallyPage. rewrite compile_literal by done. simpl. apply IH.
Qed.

Lemma analyzeKeywordDensity_literal (pages : list PageRecord) (keywords : list string) :
  Forall (fun keyword => isLiteral keyword = true) keywords ->
  exists density, analyzeKeywordDensity pages keywords = Returns density.
Proof.
  unfold analyzeKeywordDensity. generalize (∅ : gmap string KeywordReport).
  induction keywords as [|k keywords IH]; intros density Hall; simpl; [eauto|].
  apply Forall_cons in Hall as [Hk Hall].
  unfold keywordReport.
  destruct (tallyPages_literal k pages
              {| entriesSoFar := []; totalOccurrences := 0; totalWords := 0 |} Hk)
    as [tally ->].
  simpl. by apply IH.
Qed.



(** The percentage of [n] out of [d]. *)
Lemma percentage_zero (d : nat) :
  (percentage 0 d == 0)%Q /\ Js.toFixed2 (percentage 0 d) = "0.00".
Proof.
  assert (percentage 0 d = 0%Q) as ->; [|done].
  unfold percentage. destruct (0 <? d); [|done].
  by destruct d.
Qed.

Lemma percentage_nonneg (n d : nat) : (0 <= percentage n d)%Q.
Proof.
  unfold percentage. destruct (Nat.ltb_spec 0 d) as [Hd|Hd]; [|done].
  apply double_nonneg.
  apply Qmult_le_0_compat; [|done]. apply double_nonneg.
  apply Qle_shift_div_l.
  - change 0%Q with (inject_Z 0). rewrite <- Zlt_Qlt. lia.
  - rewrite Qmult_0_l. change 0%Q with (inject_Z 0). rewrite <- Zle_Qle. lia.
Qed.

Lemma percentage_le_100 (n d : nat) : n <= d -> (percentage n d <= 100)%Q.
Proof.
  intros Hle. unfold percentage. destruct (Nat.ltb_spec 0 d) as [Hd|Hd]; [|done].
  assert (0 < inject_Z (Z.of_nat d))%Q as Hdpos.
  { change 0%Q with (inject_Z 0). rewrite <- Zlt_Qlt. lia. }
  assert (0 <= inject_Z (Z.of_nat n) / inject_Z (Z.of_nat d))%Q as Hlo.
  { apply Qle_shift_div_l; [done|].
    rewrite Qmult_0_l. change 0%Q with (inject_Z 0). rewrite <- Zle_Qle. lia. }
  assert (inject_Z (Z.of_nat n) / inject_Z (Z.of_nat d) <= 1)%Q as Hhi.
  { apply Qle_shift_div_r; [done|]. rewrite Qmult_1_l. rewrite <- Zle_Qle. lia. }
  pose proof (double_mono _ _ Hlo Hhi) as Hq. rewrite double_1 in Hq.
  pose proof (double_nonneg _ Hlo) as Hq0.
  apply Qle_trans with (Js.double 100); [apply double_mono; lra|].
  rewrite double_100. apply Qle_refl.
Qed.



(** The message of the syntax error names the pattern, the keyword in
    lower case, with the flags. *)
Example syntax_error_message :
  analyzeKeywordDensity [Sample.page "" "" "abc"] ["C++"]
  = Throws "Invalid regular expression: /c++/gi: Nothing to repeat".
Proof. reflexivity. Qed.


(** The entry of that page: two occurrences, reported as 200.00. *)
Example density_of_a_in_aa :
  map (densityEntry "a") [Sample.page "" "" "aa"]
  = [{| pd_url := "http://a/"; occurrences := 2; density := "200.00" |}].
Proof. vm_compute. reflexivity. Qed.

(** The quotient and the product are rounded: 23 occurrences in 160 words
    are reported as 14.37, the product being the double just below
    14.375, of which the exact quotient would give 14.38. *)
Example rounded_percentage :
  Js.toFixed2 (percentage 23 160) = "14.37"
  /\ (percentage 23 160 < 14375 # 1000)%Q
  /\ Js.toFixed2 (inject_Z 23 / inject_Z 160 * 100) = "14.38".
Proof. split_and!; vm_compute; reflexivity. Qed.



(** The scenario of the specification: ["Widgets"] twice in a hundred words
    is a density of 2.00 for the page. *)
Example widgets_twice_in_a_hundred_words :
  let text := Js.join " " (["Widgets"; "and"; "widgets"] ++ repeat "word" 97) in
  map (fun entry => (occurrences entry, density entry))
      (byPage (default {| overall := 0; byPage := [] |}
                 (match keywordReport [Sample.page "" "" text] "widgets" with
                  | Returns report => Some report
                  | _ => None
                  end)))
  = [(2, "2.00")].
Proof. vm_compute. reflexivity. Qed.

(** ** Readability *)


Example beautiful_day_scores :
  Readability.calculateFleschKincaid "beautiful day" = Js.double (1469 # 100)
  /\ Js.toFixed2 (Readability.calculateFleschKincaid "beautiful day") = "14.69"
  /\ Qred (ReadabilitySpec.fleschKincaid "beautiful day") = (879 # 100)%Q.
Proof. split_and!; vm_compute; reflexivity. Qed.

(** The grade is computed in doubles: eight words, one sentence and nine
    syllables give a score whose hundredfold is the double just below
    80.5, and the grade 0.8, where the exact value 0.805 rounds to 0.81. *)
Example grade_is_rounded_in_doubles :
  Readability.calculateFleschKincaid "the cat sat on the mat with table"
  = Js.double (8 # 10)
  /\ Js.round (((39 # 100) * (8 / 1) + (118 # 10) * (9 / 8) - (1559 # 100)) * 100) = 81%Z.
Proof. split; vm_compute; reflexivity. Qed.

(** A fragment made of whitespace only is counted as a sentence, and the
    empty token before a leading space as a word of one syllable. *)
Example whitespace_fragment_is_a_sentence :
  length (filter (fun s => Js.truthy s = true) (Js.splitRuns isTerminator "Stop. . Go"))
  = 3
  /\ ReadabilitySpec.sentences "Stop. . Go" = 2.
Proof. split; vm_compute; reflexivity. Qed.

Example leading_space_is_a_syllable :
  Readability.countSyllables " hello" = 3
  /\ sumOf Readability.countSyllablesInWord (wordsOf " hello") = 2.
Proof. split; vm_compute; reflexivity. Qed.

Section Fragments.

Variable sep : ascii -> bool.

(** The fragments of a split: there is always one, and the fragments that
    are not empty are the runs of the string. *)
Lemma splitRunsFrom_runs (l : list ascii) (b : bool) :
  exists f fs,
    Js.splitRunsFrom sep b l = f :: fs
    /\ length (filter (fun x => x <> []) (f :: fs)) = countRunsFrom sep false l
    /\ (b = false -> length (filter (fun x => x <> []) fs) = countRunsFrom sep true l).
Proof.
  revert b. induction l as [|c t IH]; intros b.
  - exists [], []. split_and!; [done| |done]. by rewrite filter_cons_False by naive_solver.
  - simpl. destruct (sep c) eqn:Hc.
    + destruct (IH true) as (f & fs & Heq & Hall & _). rewrite Heq.
      destruct b.
      * exists f, fs. by split_and!.
      * exists [], (f :: fs). split_and!; [done| |done].
        by rewrite filter_cons_False by naive_solver.
    + destruct (IH false) as (f & fs & Heq & _ & Htl). rewrite Heq.
      exists (c :: f), fs. split_and!; [done| |].
      * rewrite filter_cons_True by done. simpl. by rewrite Htl.
      * intros ->. by rewrite Htl.
Qed.


End Fragments.

Lemma str_cons (c : ascii) (l : list ascii) : Js.str (c :: l) = String c (Js.str l).
Proof. reflexivity. Qed.

Lemma str_length (l : list ascii) : String.length (Js.str l) = length l.
Proof. induction l as [|c l IH]; simpl; [done|]. by f_equal. Qed.


Lemma filter_nonempty_str (frs : list (list ascii)) :
  filter (fun w : string => 0 < String.length w) (map Js.str frs)
  = map Js.str (filter (fun x => x <> []) frs).
Proof.
  induction frs as [|f frs IH]; [done|]. simpl map.
  destruct f as [|c f].
  - rewrite !filter_cons_False by (simpl; (lia || naive_solver)). done.
  - rewrite !filter_cons_True by (simpl; (lia || done)). simpl. by f_equal.
Qed.


Lemma wordsOf_length (s : string) : length (wordsOf s) = countRuns Js.isSpace s.
Proof.
  unfold wordsOf, Js.splitRuns, countRuns. rewrite filter_nonempty_str, length_map.
  destruct (splitRunsFrom_runs Js.isSpace (Js.chars s) false) as (f & fs & -> & H & _). done.
Qed.



Lemma foldl_sum {A : Type} (f : A -> nat) (l : list A) (start : nat) :
  foldl (fun total x => total + f x) start l = start + sumOf f l.
Proof.
  revert start. induction l as [|x l IH]; intros start; unfold sumOf in *; simpl; [lia|].
  rewrite IH. lia.
Qed.






(** [Math.round]: the integer within one half of the number, a tie going
    up. *)
Lemma round_nearest (x : Q) :
  (x - (1 # 2) < inject_Z (Js.round x))%Q /\ (inject_Z (Js.round x) <= x + (1 # 2))%Q.
Proof.
  unfold Js.round. split.
  - pose proof (Qlt_floor (x + (1 # 2))) as H.
    rewrite inject_Z_plus in H.
    apply (Qplus_lt_l _ _ 1). 
    eapply Qle_lt_trans; [|exact H].
    ring_simplify. apply Qle_refl.
  - apply Qfloor_le.
Qed.





















Example flesch_kincaid_two_sentences :
  Js.toFixed2 (Readability.calculateFleschKincaid "Beautiful homes. We jumped!") = "11.74".
Proof. vm_compute. reflexivity. Qed.

(** * Further properties of the code *)

(** ** The crawler, continued *)

Section CrawlerMore.

Variable resolveUrl : string -> string -> option string.
Variable web : nat -> string -> option Document.
Variable maxPages : nat.

(** A property kept by every iteration holds when the loop returns. *)
Lemma crawlLoop_invariant (P : CrawlState -> Prop) :
  (forall st st', P st -> crawlIter resolveUrl web maxPages st = Some st' -> P st') ->
  forall fuel st st',
    P st -> crawlLoop resolveUrl web maxPages fuel st = Some st' -> P st'.
Proof.
  intros Hstep fuel. induction fuel as [|fuel IH]; intros st st' HP; simpl; [done|].
  destruct (crawlIter resolveUrl web maxPages st) as [st1|] eqn:Hit.
  - apply IH. by eapply Hstep.
  - by intros [= <-].
Qed.

(** The cases of an iteration. *)
Lemma crawlIter_cases (st st' : CrawlState) :
  crawlIter resolveUrl web maxPages st = Some st' ->
  exists currentUrl rest,
    toVisit st = currentUrl :: rest /\ length (pages st) < maxPages /\
    (((currentUrl ∈ visited st) /\
      st' = {| pages := pages st; visited := visited st; toVisit := rest;
               requests := requests st; trace := trace st |})
     \/ ((currentUrl ∉ visited st) /\
         crawlPage resolveUrl web (requests st) currentUrl = None /\
         st' = {| pages := pages st; visited := visited st; toVisit := rest;
                  requests := S (requests st);
                  trace := trace st ++ [(currentUrl, false)] |})
     \/ ((currentUrl ∉ visited st) /\
         exists page,
           crawlPage resolveUrl web (requests st) currentUrl = Some page /\
           pages st' = pages st ++ [page] /\
           visited st' = visited st ∪ {[currentUrl]} /\
           toVisit st' =
             rest ++ filter (fun l => l ∉ visited st ∪ {[currentUrl]})
                            (extractLinks resolveUrl (rawHtml page) currentUrl) /\
           requests st' = S (requests st) /\
           trace st' = trace st ++ [(currentUrl, true)])).
Proof.
  unfold crawlIter.
  destruct (toVisit st) as [|cur rest]; [done|].
  destruct (Nat.ltb_spec (length (pages st)) maxPages) as [Hlt|]; [|done].
  intros H. exists cur, rest. split_and!; [done..|].
  case_bool_decide as Hvis.
  - left. by injection H as <-.
  - right. destruct (crawlPage resolveUrl web (requests st) cur) as [page|].
    + right. split; [done|]. exists page. by injection H as <-.
    + left. by injection H as <-.
Qed.

(** Every record comes out of [crawlPage], for its own URL. *)
Lemma crawl_pages_crawled (fuel : nat) (seed : string) (st : CrawlState) :
  crawlRun resolveUrl web maxPages fuel seed = Some st ->
  forall p, p ∈ pages st -> exists n, crawlPage resolveUrl web n (url p) = Some p.
Proof.
  intros Hrun.
  apply (crawlLoop_invariant
           (fun st => forall p, p ∈ pages st ->
                        exists n, crawlPage resolveUrl web n (url p) = Some p))
    with (fuel := fuel) (st := initialState seed); [| |exact Hrun].
  - intros st0 st' HP Hit p.
    apply crawlIter_cases in Hit
      as (cur & rest & _ & _ & [[_ ->]|[(_ & _ & ->)|(_ & page & Hcp & -> & _)]]);
      simpl; try apply HP.
    intros [Hp| ->%list_elem_of_singleton]%elem_of_app; [by apply HP|].
    exists (requests st0). by rewrite (proj1 (crawlPage_url _ _ _ _ _ Hcp)).
  - intros p Hp. by apply elem_of_nil in Hp.
Qed.

(** No request leaves the seed: every URL that the crawl requests starts
    with the seed URL. *)
Lemma crawl_trace_within_seed (fuel : nat) (seed : string) (st : CrawlState) :
  crawlRun resolveUrl web maxPages fuel seed = Some st ->
  forall a, a ∈ trace st -> Js.startsWith (fst a) seed = true.
Proof.
  intros Hrun.
  apply (crawlLoop_invariant
           (fun st => Inv resolveUrl maxPages seed st /\
                      forall a, a ∈ trace st -> Js.startsWith (fst a) seed = true)
           ) with (fuel := fuel) (st := initialState seed); [| |exact Hrun].
  - intros st0 st' [Hinv HP] Hit. split; [by eapply (Inv_step resolveUrl web)|].
    pose proof (inv_frontier _ _ _ _ Hinv) as Hfr.
    apply crawlIter_cases in Hit
      as (cur & rest & Htv & _ & [[_ ->]|[(_ & _ & ->)|(_ & page & _ & _ & _ & _ & _ & ->)]]);
      simpl; try apply HP.
    + intros a [Ha| ->%list_elem_of_singleton]%elem_of_app; [by apply HP|].
      apply Hfr. rewrite Htv. left.
    + intros a [Ha| ->%list_elem_of_singleton]%elem_of_app; [by apply HP|].
      apply Hfr. rewrite Htv. left.
  - split; [apply (Inv_initial resolveUrl web)|]. intros a Ha. by apply elem_of_nil in Ha.
Qed.

(** Until the first page is collected the frontier holds the seed alone,
    or nothing once the seed has failed; the first page is that of the
    seed, fetched by the first request. *)
Lemma crawl_seed_first (fuel : nat) (seed : string) (st : CrawlState) :
  crawlRun resolveUrl web maxPages fuel seed = Some st ->
  match pages st with
  | [] => (toVisit st = [seed] /\ requests st = 0 /\ visited st = ∅)
          \/ (toVisit st = [] /\ web 0 seed = None)
  | p :: _ => crawlPage resolveUrl web 0 seed = Some p
  end.
Proof.
  intros Hrun.
  apply (crawlLoop_invariant
           (fun st => match pages st with
                      | [] => (toVisit st = [seed] /\ requests st = 0 /\ visited st = ∅)
                              \/ (toVisit st = [] /\ web 0 seed = None)
                      | p :: _ => crawlPage resolveUrl web 0 seed = Some p
                      end))
    with (fuel := fuel) (st := initialState seed); [| |exact Hrun].
  - intros st0 st' HP Hit.
    apply crawlIter_cases in Hit
      as (cur & rest & Htv & _ & [[Hvis ->]|[(_ & Hcp & ->)|(_ & page & Hcp & Hpg & _)]]);
      simpl.
    + destruct (pages st0); [|done].
      destruct HP as [(Hs & _ & Hv)|[Hs _]]; [|congruence].
      rewrite Hv in Hvis. set_solver.
    + destruct (pages st0); [|done].
      destruct HP as [(Hs & Hr & _)|[Hs _]]; [|congruence].
      right. rewrite Htv in Hs. injection Hs as -> ->. split; [done|].
      rewrite Hr in Hcp. unfold crawlPage in Hcp. by destruct (web 0 seed).
    + rewrite Hpg. destruct (pages st0); [|done]. simpl.
      destruct HP as [(Hs & Hr & _)|[Hs _]]; [|congruence].
      rewrite Htv in Hs. injection Hs as -> ->. by rewrite Hr in Hcp.
  - simpl. by left.
Qed.

End CrawlerMore.

(** X1. The crawl returns no page exactly when the cap is zero or the seed
    cannot be fetched by the first request; otherwise its first record is
    the page of the seed. *)
Theorem crawl_starts_with_seed
  (resolveUrl : string -> string -> option string)
  (web : nat -> string -> option Document)
  (maxPages fuel : nat) (seed : string) (result : list PageRecord) :
  crawlWebsite resolveUrl web maxPages fuel seed = Some result ->
  (result = [] <-> maxPages = 0 \/ web 0 seed = None)
  /\ (forall p rest, result = p :: rest ->
        url p = seed /\ crawlPage resolveUrl web 0 seed = Some p).
Proof.
  unfold crawlWebsite. intros H.
  destruct (crawlRun resolveUrl web maxPages fuel seed) as [st|] eqn:Hrun; [|done].
  injection H as <-.
  pose proof (crawl_seed_first _ _ _ _ _ _ Hrun) as Hfirst.
  pose proof (Inv_run _ _ _ _ _ _ Hrun) as [Hinv Hstop].
  pose proof (inv_cap _ _ _ _ Hinv) as Hcap.
  destruct (pages st) as [|p rest] eqn:Hpages.
  - split; [|done]. split; [|done]. intros _.
    destruct Hfirst as [(Htv & _ & _)|[_ Hnone]]; [|by right].
    left. unfold crawlIter in Hstop. rewrite Htv, Hpages in Hstop. simpl in Hstop.
    destruct (Nat.ltb_spec 0 maxPages); [|lia].
    case_bool_decide; [done|]. by destruct (crawlPage _ _ _ _).
  - split.
    + split; [done|]. intros [->|Hnone]; [simpl in Hcap; lia|].
      unfold crawlPage in Hfirst. by rewrite Hnone in Hfirst.
    + intros p' rest' [= <- <-]. split; [|done].
      by apply crawlPage_url in Hfirst as [? _].
Qed.

Lemma crawl_starts_with_seed_witness :
  exists result,
    crawlWebsite Site.absolute Site.web 5 10 "http://a/" = Some result
    /\ (result = [] <-> 5 = 0 \/ Site.web 0 "http://a/" = None).
Proof.
  exists (default [] (crawlWebsite Site.absolute Site.web 5 10 "http://a/")).
  split; [vm_compute; reflexivity|].
  apply (crawl_starts_with_seed Site.absolute Site.web 5 10 "http://a/").
  vm_compute; reflexivity.
Defined.

(** X2. The crawl never requests a URL that does not start with the seed
    URL, whether the request succeeds or fails. *)
Theorem crawl_requests_within_seed
  (resolveUrl : string -> string -> option string)
  (web : nat -> string -> option Document)
  (maxPages fuel : nat) (seed : string) (st : CrawlState)
  (requested : string) (succeeded : bool) :
  crawlRun resolveUrl web maxPages fuel seed = Some st ->
  (requested, succeeded) ∈ trace st ->
  Js.startsWith requested seed = true.
Proof.
  intros Hrun Hin. exact (crawl_trace_within_seed _ _ _ _ _ _ Hrun _ Hin).
Qed.

Lemma crawl_requests_within_seed_witness :
  exists st,
    crawlRun Site.absolute Site.web 5 10 "http://a/" = Some st
    /\ ("http://a/px", false) ∈ trace st
    /\ Js.startsWith "http://a/px" "http://a/" = true.
Proof.
  pose (st := default (initialState "") (crawlRun Site.absolute Site.web 5 10 "http://a/")).
  assert (Hrun : crawlRun Site.absolute Site.web 5 10 "http://a/" = Some st)
    by (vm_compute; reflexivity).
  assert (Hin : ("http://a/px", false) ∈ trace st) by (vm_compute; right; left).
  exists st. split_and!; [done..|].
  exact (crawl_requests_within_seed Site.absolute Site.web 5 10 "http://a/" st
           "http://a/px" false Hrun Hin).
Defined.

(** ** Extraction *)

Lemma pushLink_complete (resolveUrl : string -> string -> option string)
  (base : string) (hrefs acc : list string) (l : string) :
  l ∈ acc \/ (exists href, href ∈ hrefs /\ resolveUrl href base = Some l
                           /\ Js.startsWith l base = true) ->
  l ∈ fold_left (pushLink resolveUrl base) hrefs acc.
Proof.
  revert acc. induction hrefs as [|h hrefs IH]; intros acc; simpl.
  - intros [?|(href & Hin & _)]; [done|]. by apply elem_of_nil in Hin.
  - intros H. apply IH.
    destruct H as [Hacc|(href & Hin & Hres & Hsw)].
    + left. unfold pushLink. destruct (resolveUrl h base) as [a|]; [|done].
      destruct (Js.startsWith a base); [|done]. apply elem_of_app. by left.
    + apply elem_of_cons in Hin as [->|Hin].
      * left. unfold pushLink. rewrite Hres, Hsw. apply elem_of_app. right. left.
      * right. eauto.
Qed.

(** X3. [extractLinks] returns, without repetition, exactly the resolved
    hrefs of the document that start with the base URL; an href that does
    not resolve is left out. *)
Theorem extractLinks_exact
  (resolveUrl : string -> string -> option string) (d : Document) (base : string) :
  NoDup (extractLinks resolveUrl d base)
  /\ forall link,
       link ∈ extractLinks resolveUrl d base
       <-> exists href, href ∈ doc_hrefs d /\ resolveUrl href base = Some link
                        /\ Js.startsWith link base = true.
Proof.
  unfold extractLinks. split; [apply setSpread_NoDup|].
  intros link. rewrite setSpread_elem. split.
  - intros H. apply pushLink_elem in H as [H|(Hsw & href & Hin & Hres)].
    + by apply elem_of_nil in H.
    + eauto.
  - intros H. apply pushLink_complete. by right.
Qed.

Lemma chars_substring0 (n : nat) (s : string) :
  Js.chars (Js.substring0 n s) = take n (Js.chars s).
Proof.
  unfold Js.substring0. revert n. induction s as [|c s IH]; intros [|n]; simpl; try done.
  by rewrite IH.
Qed.

(** What [dropSpaces] removes is a run of whitespace at the head. *)
Lemma dropSpaces_suffix (l : list ascii) :
  exists dropped, l = dropped ++ Js.dropSpaces l /\ forallb Js.isSpace dropped = true.
Proof.
  induction l as [|c l (dropped & IH & Hall)]; [by exists []|]. simpl.
  destruct (Js.isSpace c) eqn:Hc.
  - exists (c :: dropped). simpl. rewrite Hc, Hall. split; [by f_equal|done].
  - by exists [].
Qed.

Lemma dropSpaces_head (l : list ascii) : firstIs Js.isSpace (Js.dropSpaces l) = false.
Proof.
  induction l as [|c l IH]; [done|]. simpl.
  destruct (Js.isSpace c) eqn:Hc; [done|]. simpl. done.
Qed.

(** Trimming keeps a prefix of what is left once the head is dropped. *)
Lemma trim_prefix (l : list ascii) :
  exists dropped,
    Js.dropSpaces l = rev (Js.dropSpaces (rev (Js.dropSpaces l))) ++ dropped
    /\ forallb Js.isSpace dropped = true.
Proof.
  destruct (dropSpaces_suffix (rev (Js.dropSpaces l))) as (dropped & Heq & Hall).
  exists (rev dropped). split.
  - apply (f_equal (@rev ascii)) in Heq.
    by rewrite rev_involutive, rev_app_distr in Heq.
  - rewrite forallb_forall in *. intros x Hx. apply Hall. by apply in_rev.
Qed.

Lemma singleSpaced_weaken (l : list ascii) :
  singleSpaced true l = true -> singleSpaced false l = true.
Proof.
  destruct l as [|c l]; [done|]. simpl. destruct (Js.isSpace c); [|done].
  by rewrite andb_false_r.
Qed.

Lemma singleSpaced_prefix (b : bool) (l1 l2 : list ascii) :
  singleSpaced b (l1 ++ l2) = true -> singleSpaced b l1 = true.
Proof.
  revert b. induction l1 as [|c l1 IH]; intros b; [done|]. simpl.
  destruct (Js.isSpace c).
  - intros [H1 H2]%andb_true_iff. rewrite H1. simpl. by eapply IH.
  - apply IH.
Qed.

Lemma singleSpaced_take (b : bool) (n : nat) (l : list ascii) :
  singleSpaced b l = true -> singleSpaced b (take n l) = true.
Proof.
  intros H. rewrite <- (take_drop n l) in H. by eapply singleSpaced_prefix.
Qed.

Lemma collapseFrom_singleSpaced (b : bool) (l : list ascii) :
  singleSpaced b (Js.collapseFrom b l) = true.
Proof.
  revert b. induction l as [|c l IH]; intros b; [done|]. simpl.
  destruct (Js.isSpace c) eqn:Hc.
  - destruct b; [apply IH|]. simpl. apply IH.
  - simpl. rewrite Hc. apply IH.
Qed.

Lemma dropSpaces_singleSpaced (l : list ascii) :
  singleSpaced false l = true -> singleSpaced true (Js.dropSpaces l) = true.
Proof.
  induction l as [|c l IH]; [done|]. simpl.
  destruct (Js.isSpace c) eqn:Hc.
  - intros [[_ _]%andb_true_iff H]%andb_true_iff.
    apply IH. by apply singleSpaced_weaken.
  - intros H. simpl. by rewrite Hc.
Qed.

Lemma trim_singleSpaced (s : string) :
  singleSpaced false (Js.chars s) = true ->
  singleSpaced true (Js.chars (Js.trim s)) = true.
Proof.
  intros H. unfold Js.trim. rewrite chars_str.
  apply dropSpaces_singleSpaced in H.
  destruct (trim_prefix (Js.chars s)) as (dropped & Heq & _).
  rewrite Heq in H. by eapply singleSpaced_prefix.
Qed.

Lemma substring0_length (n : nat) (s : string) : String.length (Js.substring0 n s) <= n.
Proof. rewrite <- chars_length, chars_substring0, length_take. lia. Qed.

(** X4. The content extracted from a document has at most 10000
    characters, does not start with whitespace, and holds whitespace only
    as single spaces. *)
Theorem extractContent_normalised (d : Document) :
  String.length (extractContent d) <= 10000
  /\ singleSpaced true (Js.chars (extractContent d)) = true.
Proof.
  unfold extractContent. split; [apply substring0_length|].
  rewrite chars_substring0. apply singleSpaced_take, trim_singleSpaced.
  unfold Js.collapseSpaces. rewrite chars_str. apply collapseFrom_singleSpaced.
Qed.

(** The runs of a string are at most half its characters, rounded up. *)
Lemma countRunsFrom_bound (sep : ascii -> bool) (l : list ascii) :
  2 * countRunsFrom sep false l <= length l + 1
  /\ 2 * countRunsFrom sep true l <= length l.
Proof.
  induction l as [|c l [IH1 IH2]]; simpl; [lia|].
  destruct (sep c); lia.
Qed.

Lemma wordsOf_bound (s : string) : 2 * length (wordsOf s) <= String.length s + 1.
Proof.
  rewrite wordsOf_length, <- chars_length. unfold countRuns.
  apply countRunsFrom_bound.
Qed.

(** The ends of a trimmed string. *)
Lemma lastIs_rev (p : ascii -> bool) (l : list ascii) : lastIs p (rev l) = firstIs p l.
Proof.
  destruct l as [|c l]; [done|]. simpl.
  generalize (rev l). intros r. induction r as [|x r IH]; [done|].
  change ((x :: r) ++ [c]) with (x :: (r ++ [c])).
  destruct (r ++ [c]) as [|y r'] eqn:Hr; [by destruct r|]. exact IH.
Qed.

Lemma trim_edgesClean (s : string) : edgesClean (Js.trim s) = true.
Proof.
  unfold edgesClean, Js.trim. rewrite chars_str.
  destruct (trim_prefix (Js.chars s)) as (dropped & Heq & _).
  pose proof (dropSpaces_head (Js.chars s)) as Hhead.
  pose proof (dropSpaces_head (rev (Js.dropSpaces (Js.chars s)))) as Hlast.
  rewrite <- lastIs_rev in Hlast.
  destruct (rev (Js.dropSpaces (rev (Js.dropSpaces (Js.chars s))))) as [|c t] eqn:Hr; [done|].
  rewrite Hlast. rewrite Heq in Hhead. simpl in Hhead. by rewrite Hhead.
Qed.

(** X5. Every record of a crawl has the word count of its content, at most
    5000; links without repetition; and a title without whitespace at
    either end. *)
Theorem crawled_record_consistent
  (resolveUrl : string -> string -> option string)
  (web : nat -> string -> option Document)
  (maxPages fuel : nat) (seed : string) (result : list PageRecord) (p : PageRecord) :
  crawlWebsite resolveUrl web maxPages fuel seed = Some result ->
  p ∈ result ->
  wordCount p = length (wordsOf (content p))
  /\ wordCount p <= 5000
  /\ content p = extractContent (rawHtml p)
  /\ NoDup (links p)
  /\ edgesClean (title p) = true.
Proof.
  unfold crawlWebsite. intros H Hp.
  destruct (crawlRun resolveUrl web maxPages fuel seed) as [st|] eqn:Hrun; [|done].
  injection H as <-.
  destruct (crawl_pages_crawled _ _ _ _ _ _ Hrun p Hp) as [n Hcp].
  unfold crawlPage in Hcp. destruct (web n (url p)) as [d|]; [|done].
  injection Hcp as Hcp. rewrite <- Hcp. simpl.
  assert (String.length (extractContent d) <= 10000) as Hlen
    by (unfold extractContent; apply substring0_length).
  pose proof (wordsOf_bound (extractContent d)) as Hwords.
  split_and!.
  - done.
  - unfold getWordCount.
    assert (10000 = 5000 + 5000) as Hcap by (vm_compute; reflexivity).
    rewrite Hcap in Hlen. lia.
  - done.
  - unfold extractLinks. apply setSpread_NoDup.
  - apply trim_edgesClean.
Qed.

Lemma crawled_record_consistent_witness :
  exists result p,
    crawlWebsite Site.absolute Site.web 5 10 "http://a/" = Some result
    /\ p ∈ result
    /\ wordCount p = length (wordsOf (content p))
    /\ wordCount p <= 5000.
Proof.
  pose (result := default [] (crawlWebsite Site.absolute Site.web 5 10 "http://a/")).
  assert (Hrun : crawlWebsite Site.absolute Site.web 5 10 "http://a/" = Some result)
    by (vm_compute; reflexivity).
  pose (page := default (Sample.page "" "" "") (head result)).
  assert (Hpage : page ∈ result) by (vm_compute; left).
  exists result, page. split_and!; [done..| |].
  - exact (proj1 (crawled_record_consistent Site.absolute Site.web 5 10 "http://a/"
                    result page Hrun Hpage)).
  - exact (proj1 (proj2 (crawled_record_consistent Site.absolute Site.web 5 10 "http://a/"
                    result page Hrun Hpage))).
Defined.

(** ** Meta tags, continued *)

Lemma append_length (a b : string) :
  String.length (a +:+ b) = String.length a + String.length b.
Proof. induction a as [|c a IH]; simpl; [done|]. by rewrite IH. Qed.

(** A text cut at [n] characters with its ellipsis has at most [n + 3]
    characters, and is the text itself when that is short enough. *)
Lemma ellipsize_length (n : nat) (s : string) :
  String.length (ellipsize n s) <= n + 3
  /\ (String.length s <= n -> ellipsize n s = s).
Proof.
  unfold ellipsize. split.
  - rewrite append_length. pose proof (substring0_length n s).
    destruct (n <? String.length s); simpl; lia.
  - intros Hle. destruct (Nat.ltb_spec n (String.length s)); [lia|].
    apply chars_inj. rewrite chars_app, chars_substring0. simpl. rewrite app_nil_r.
    apply take_ge. by rewrite chars_length.
Qed.

Lemma optimizeTitle_length (engine : SortOrder) (currentTitle content : string) :
  String.length (optimizeTitle engine currentTitle content) <= 60.
Proof. unfold optimizeTitle. apply (ellipsize_length 57). Qed.

Lemma optimizeDescription_length (content : string) :
  String.length (optimizeDescription content) <= 155.
Proof. unfold optimizeDescription. apply (ellipsize_length 152). Qed.

(** X6. Every replacement text that [analyzeMetaTags] suggests respects
    the limit of its field, whatever the order in which the sort of the
    engine leaves the counted words: a suggested title has at most 60
    characters and a suggested description at most 155. *)
Theorem suggestions_within_limits (pages : list PageRecord) (s : Suggestion)
  (engine : SortOrder) :
  s ∈ suggestions (analyzeMetaTags pages) ->
  (sg_type s = "title" /\ String.length (suggested s engine) <= 60)
  \/ (sg_type s = "description" /\ String.length (suggested s engine) <= 155).
Proof.
  rewrite analyzeMetaTags_suggestions, elem_of_flat_map.
  intros (page & _ & Hs).
  unfold suggestionsOf, metaTagsOfPage in Hs. cbn [suggestions emptyMetaTags app] in Hs.
  destruct (60 <? String.length (title page));
    destruct ((155 <? String.length (description page))
              || (String.length (description page) =? 0));
    cbn [app] in Hs;
    repeat (apply elem_of_cons in Hs as [->|Hs]);
    try (by apply elem_of_nil in Hs); cbn [sg_type suggested].
  - left. split; [done|]. apply optimizeTitle_length.
  - right. split; [done|]. apply optimizeDescription_length.
  - left. split; [done|]. apply optimizeTitle_length.
  - right. split; [done|]. apply optimizeDescription_length.
Qed.

Lemma suggestions_within_limits_witness :
  exists s,
    s ∈ suggestions (analyzeMetaTags
                       [Sample.page (Sample.filler 61) ""
                          "The constructor of garden tools for every garden"])
    /\ suggested s (fun freq => freq) = "constructor | garden"
    /\ sg_type s = "title"
    /\ String.length (suggested s (fun freq => freq)) <= 60.
Proof.
  pose (page := Sample.page (Sample.filler 61) ""
                  "The constructor of garden tools for every garden").
  pose (s := {| sg_url := url page; sg_type := "title"; sg_current := title page;
                suggested := fun engine => optimizeTitle engine (title page) (content page) |}).
  assert (Hin : s ∈ suggestions (analyzeMetaTags [page])) by (vm_compute; left).
  exists s. split_and!; [done|by vm_compute|done|].
  destruct (suggestions_within_limits [page] s (fun freq => freq) Hin)
    as [[_ H]|[Hty _]]; [exact H|discriminate Hty].
Defined.

(** The title suggested for a content that holds ["constructor"] depends
    on the order of the engine: with the entries left in place it starts
    with that word, with the entries reversed it does not hold it. *)
Example title_with_constructor :
  let content := "The constructor of garden tools for every garden" in
  extractKeyPhrases content = None
  /\ optimizeTitle (fun freq => freq) "" content = "constructor | garden"
  /\ optimizeTitle (fun freq => rev freq) "" content = "every | tools".
Proof. split_and!; vm_compute; reflexivity. Qed.

Lemma missing_title_of_page (page : PageRecord) (u : string) :
  u +:+ ": Missing title" ∈ issuesOf page
  <-> url page = u /\ String.length (title page) = 0.
Proof.
  unfold issuesOf, metaTagsOfPage. cbn [issues emptyMetaTags app].
  destruct (Nat.eqb_spec (String.length (title page)) 0) as [H0|H0];
  destruct (60 <? String.length (title page));
  destruct (String.length (description page) =? 0);
  destruct (155 <? String.length (description page));
  cbn [app]; rewrite ?elem_of_cons, ?elem_of_nil;
  (split;
   [ intros H; repeat (destruct H as [H|H]); try done;
     symmetry in H; message_eq H; by split
   | intros [<- H]; try lia; auto ]).
Qed.

Lemma missing_description_of_page (page : PageRecord) (u : string) :
  u +:+ ": Missing description" ∈ issuesOf page
  <-> url page = u /\ String.length (description page) = 0.
Proof.
  unfold issuesOf, metaTagsOfPage. cbn [issues emptyMetaTags app].
  destruct (String.length (title page) =? 0);
  destruct (60 <? String.length (title page));
  destruct (Nat.eqb_spec (String.length (description page)) 0) as [D0|D0];
  destruct (155 <? String.length (description page));
  cbn [app]; rewrite ?elem_of_cons, ?elem_of_nil;
  (split;
   [ intros H; repeat (destruct H as [H|H]); try done;
     symmetry in H; message_eq H; by split
   | intros [<- H]; try lia; auto ]).
Qed.

Lemma analyzeMetaTags_entries (pages : list PageRecord) (metaTags : MetaTags) :
  mt_title (fold_left metaTagsOfPage pages metaTags)
    = mt_title metaTags
      ++ map (fun page =>
                {| me_url := url page; me_text := title page;
                   me_length := String.length (title page);
                   me_valid := (0 <? String.length (title page))
                               && (String.length (title page) <=? 60) |}) pages
  /\ mt_description (fold_left metaTagsOfPage pages metaTags)
    = mt_description metaTags
      ++ map (fun page =>
                {| me_url := url page; me_text := description page;
                   me_length := String.length (description page);
                   me_valid := (0 <? String.length (description page))
                               && (String.length (description page) <=? 155) |}) pages.
Proof.
  revert metaTags. induction pages as [|p pages IH]; intros metaTags; simpl.
  - by rewrite !app_nil_r.
  - destruct (IH (metaTagsOfPage metaTags p)) as [-> ->].
    cbn [mt_title mt_description metaTagsOfPage]. by rewrite <- !app_assoc.
Qed.

(** X7. The report has one title entry and one description entry per page,
    in the order of the pages, and the entry of a page is marked valid
    exactly when the page raises no issue for that field. *)
Theorem valid_flags_agree_with_issues (pages : list PageRecord) :
  map me_url (mt_title (analyzeMetaTags pages)) = map url pages
  /\ map me_url (mt_description (analyzeMetaTags pages)) = map url pages
  /\ forall page,
       (map me_valid (mt_title (analyzeMetaTags [page])) = [true]
        <-> (url page +:+ ": Missing title" ∉ issues (analyzeMetaTags [page]))
            /\ (url page +:+ ": Title too long" ∉ issues (analyzeMetaTags [page])))
       /\ (map me_valid (mt_description (analyzeMetaTags [page])) = [true]
           <-> (url page +:+ ": Missing description" ∉ issues (analyzeMetaTags [page]))
               /\ (url page +:+ ": Description too long" ∉ issues (analyzeMetaTags [page]))).
Proof.
  unfold analyzeMetaTags.
  destruct (analyzeMetaTags_entries pages emptyMetaTags) as [-> ->].
  split_and!.
  - simpl. by rewrite map_map.
  - simpl. by rewrite map_map.
  - intros page.
    destruct (analyzeMetaTags_entries [page] emptyMetaTags) as [-> ->].
    pose proof (analyzeMetaTags_issues [page]) as Hissues.
    unfold analyzeMetaTags in Hissues. rewrite Hissues. simpl flat_map.
    rewrite app_nil_r.
    rewrite missing_title_of_page, title_too_long_of_page,
            missing_description_of_page, description_too_long_of_page.
    simpl. split.
    + destruct (Nat.ltb_spec 0 (String.length (title page))) as [Ha|Ha];
      destruct (Nat.leb_spec (String.length (title page)) 60) as [Hb|Hb];
      simpl; split; try done;
      try (intros _; split; intros [_ ?]; lia);
      intros [Hx Hy]; exfalso;
      first [apply Hx; split; [done|lia] | apply Hy; split; [done|lia]].
    + destruct (Nat.ltb_spec 0 (String.length (description page))) as [Ha|Ha];
      destruct (Nat.leb_spec (String.length (description page)) 155) as [Hb|Hb];
      simpl; split; try done;
      try (intros _; split; intros [_ ?]; lia);
      intros [Hx Hy]; exfalso;
      first [apply Hx; split; [done|lia] | apply Hy; split; [done|lia]].
Qed.

(** ** Key phrases *)





Lemma timesIn_pos (k : string) (l : list string) : k ∈ l <-> 0 < timesIn k l.
Proof.
  unfold timesIn. induction l as [|x l IH].
  - simpl. rewrite elem_of_nil. lia.
  - rewrite elem_of_cons. destruct (decide (x = k)) as [->|Hne].
    + rewrite filter_cons_True by done. simpl. split; [lia|by left].
    + rewrite filter_cons_False by done. rewrite <- IH. naive_solver.
Qed.













(** ** Meta tag extraction *)

Lemma putMetaTag_stored (metaTags : gmap string string) (el : MetaElement) :
  putMetaTag metaTags el
  = match storedKey el, meta_content el with
    | Some name, Some content => <[name := content]> metaTags
    | _, _ => metaTags
    end.
Proof.
  unfold putMetaTag, storedKey.
  destruct (orAttr (meta_name el) (meta_property el)) as [name|]; [|done].
  destruct (meta_content el) as [content|]; [|done].
  by destruct (Js.truthy name && Js.truthy content && negb (String.eqb name "__proto__")).
Qed.

Lemma storedKey_content (el : MetaElement) (k : string) :
  storedKey el = Some k ->
  exists content, meta_content el = Some content /\ content <> "" /\ k <> ""
                  /\ k <> "__proto__".
Proof.
  unfold storedKey.
  destruct (orAttr (meta_name el) (meta_property el)) as [name|]; [|done].
  destruct (meta_content el) as [content|]; [|done].
  destruct (Js.truthy name) eqn:Hn; [|done].
  destruct (Js.truthy content) eqn:Hc; [|done].
  destruct (String.eqb_spec name "__proto__") as [|Hp]; [done|].
  intros [= <-]. exists content. split_and!; [done| | |done].
  - by intros ->.
  - by intros ->.
Qed.

Lemma extractMetaTags_from (metas : list MetaElement) (acc : gmap string string)
  (k c : string) :
  fold_left putMetaTag metas acc !! k = Some c
  <-> (exists front el back,
          metas = front ++ el :: back /\ storedKey el = Some k
          /\ meta_content el = Some c
          /\ forall e, e ∈ back -> storedKey e <> Some k)
      \/ ((forall e, e ∈ metas -> storedKey e <> Some k) /\ acc !! k = Some c).
Proof.
  revert acc. induction metas as [|el metas IH]; intros acc; simpl.
  - split.
    + intros H. right. split; [|done]. intros e He. by apply elem_of_nil in He.
    + intros [(front & e & back & Heq & _)|[_ H]]; [|done]. by destruct front.
  - rewrite IH. rewrite putMetaTag_stored. split.
    + intros [(front & e & back & -> & Hk & Hc & Hback)|[Hnone Hacc]].
      * left. exists (el :: front), e, back. by split_and!.
      * destruct (decide (storedKey el = Some k)) as [Hk|Hk].
        -- left. exists [], el, metas. split_and!; [done..| |done].
           destruct (storedKey_content el k Hk) as (content & Hc & _).
           rewrite Hk, Hc in Hacc. rewrite lookup_insert_eq in Hacc. congruence.
        -- right. split.
           ++ intros e [->|He]%elem_of_cons; [done|by apply Hnone].
           ++ destruct (storedKey el) as [name|] eqn:Hs; [|done].
              destruct (meta_content el); [|done].
              rewrite lookup_insert_ne in Hacc; [done|congruence].
    + intros [(front & e & back & Heq & Hk & Hc & Hback)|[Hnone Hacc]].
      * destruct front as [|e0 front]; simpl in Heq; injection Heq as -> ->.
        -- right. split; [done|]. rewrite Hk, Hc. apply lookup_insert_eq.
        -- left. exists front, e, back. by split_and!.
      * right. split; [intros e He; apply Hnone; by right|].
        assert (storedKey el <> Some k) as Hel by (apply Hnone; left).
        destruct (storedKey el) as [name|] eqn:Hs; [|done].
        destruct (meta_content el); [|done].
        rewrite lookup_insert_ne; [done|congruence].
Qed.

(** X9. [extractMetaTags] holds for a key the content of the last element
    stored under it: an element is stored under its [name], or its
    [property] without a name, when both key and content are non-empty;
    keys and contents of the result are never empty. *)
Theorem extractMetaTags_last_wins (metas : list MetaElement) (k c : string) :
  extractMetaTags metas !! k = Some c
  <-> exists front el back,
        metas = front ++ el :: back
        /\ storedKey el = Some k /\ meta_content el = Some c
        /\ k <> "" /\ c <> ""
        /\ forall e, e ∈ back -> storedKey e <> Some k.
Proof.
  unfold extractMetaTags. rewrite extractMetaTags_from. split.
  - intros [(front & el & back & Heq & Hk & Hc & Hback)|[_ H]]; [|done].
    destruct (storedKey_content el k Hk) as (content & Hc' & Hne & Hkne & _).
    exists front, el, back. split_and!; try done. congruence.
  - intros (front & el & back & Heq & Hk & Hc & _ & _ & Hback). left. eauto 10.
Qed.

(** ** Structured data *)

Lemma collectTypes_spec (blocks : list JsonLd) (types : list string) :
  match collectTypes types blocks with
  | Returns types' =>
      (JsonNull ∉ blocks)
      /\ types' = types ++ omap (fun block => match block with
                                              | JsonValue t => t
                                              | JsonNull => None
                                              end) blocks
  | Throws _ => JsonNull ∈ blocks
  | Unmodelled => False
  end.
Proof.
  revert types. induction blocks as [|[|[t|]] blocks IH]; intros types; simpl.
  - split; [apply not_elem_of_nil|by rewrite app_nil_r].
  - left.
  - specialize (IH (types ++ [t])).
    destruct (collectTypes (types ++ [t]) blocks); [|by right|done].
    destruct IH as [Hn ->]. split; [|by rewrite <- app_assoc].
    by intros [?|?]%elem_of_cons.
  - specialize (IH types).
    destruct (collectTypes types blocks); [|by right|done].
    destruct IH as [Hn ->]. split; [|done].
    by intros [?|?]%elem_of_cons.
Qed.

Lemma structuredDataFrom_spec (pages : list PageRecord) (acc : StructuredDataSummary) :
  match structuredDataFrom acc pages with
  | Returns summary =>
      (forall page, page ∈ pages -> JsonNull ∉ structuredData page)
      /\ pagesWithData summary
         = pagesWithData acc
           + length (filter (fun page => structuredData page <> []) pages)
      /\ types summary = types acc ++ flat_map typesOf pages
  | Throws _ => exists page, page ∈ pages /\ JsonNull ∈ structuredData page
  | Unmodelled => False
  end.
Proof.
  revert acc. induction pages as [|page pages IH]; intros acc; simpl.
  - split_and!; [by intros ? ?%elem_of_nil|lia|by rewrite app_nil_r].
  - destruct (structuredData page) as [|b bs] eqn:Hsd.
    + simpl. specialize (IH acc).
      destruct (structuredDataFrom acc pages) as [summary|m|]; [| |done].
      * destruct IH as (Hn & Hc & Ht). split_and!.
        -- intros p [->|Hp]%elem_of_cons; [rewrite Hsd; apply not_elem_of_nil|by apply Hn].
        -- rewrite filter_cons_False by (rewrite Hsd; naive_solver). done.
        -- unfold typesOf at 1. by rewrite Hsd.
      * destruct IH as (p & Hp & Hnull). exists p. split; [by right|done].
    + cbn [length Nat.ltb Nat.leb]. pose proof (collectTypes_spec (b :: bs) (types acc)) as Hct.
      destruct (collectTypes (types acc) (b :: bs)) as [types'|m|]; [| |done].
      * simpl. destruct Hct as [Hnull ->].
        specialize (IH {| pagesWithData := S (pagesWithData acc);
                          types := types acc
                                   ++ omap (fun block => match block with
                                                         | JsonValue t => t
                                                         | JsonNull => None
                                                         end) (b :: bs) |}).
        destruct (structuredDataFrom _ pages) as [summary|m|]; [| |done].
        -- destruct IH as (Hn & Hc & Ht). simpl in Hc, Ht. split_and!.
           ++ intros p [->|Hp]%elem_of_cons; [by rewrite Hsd|by apply Hn].
           ++ rewrite filter_cons_True by (by rewrite Hsd). simpl. lia.
           ++ rewrite Ht. unfold typesOf at 2. rewrite Hsd. by rewrite <- app_assoc.
        -- destruct IH as (p & Hp & Hnull'). exists p. split; [by right|done].
      * simpl. exists page. split; [left|by rewrite Hsd].
Qed.

(** X10. [analyzeStructuredData] throws exactly when some page holds a
    JSON-LD block that is [null]; otherwise it counts the pages that hold
    at least one block and collects the ['@type'] values of all blocks in
    the order of the pages. *)
Theorem analyzeStructuredData_null_block (pages : list PageRecord) :
  ((exists message, analyzeStructuredData pages = Throws message)
   <-> exists page, page ∈ pages /\ JsonNull ∈ structuredData page)
  /\ ((forall page, page ∈ pages -> JsonNull ∉ structuredData page) ->
      analyzeStructuredData pages
      = Returns {| pagesWithData :=
                     length (filter (fun page => structuredData page <> []) pages);
                   types := flat_map typesOf pages |}).
Proof.
  unfold analyzeStructuredData.
  pose proof (structuredDataFrom_spec pages {| pagesWithData := 0; types := [] |}) as H.
  destruct (structuredDataFrom _ pages) as [[n ts]|m|]; [| |done]; simpl in H.
  - destruct H as (Hn & -> & ->). split.
    + split; [by intros [? ?]|]. intros (p & Hp & Hnull). by apply Hn in Hnull.
    + done.
  - destruct H as (p & Hp & Hnull). split.
    + split; [eauto|eauto].
    + intros Hn. by apply Hn in Hnull.
Qed.

(** ** Images and headings *)

Lemma imagesOfPage_spec (u : string) (imgs : list Image) (acc : ImageOptimization) :
  let result :=
    foldl (fun images img =>
             if Js.truthy (alt img) then
               {| io_total := S (io_total images);
                  missingAlt := missingAlt images;
                  io_issues := io_issues images |}
             else
               {| io_total := S (io_total images);
                  missingAlt := S (missingAlt images);
                  io_issues := io_issues images ++
                    [u +:+ ": Image missing alt text ("
                     +:+ default "undefined" (src img) +:+ ")"] |})
          acc imgs in
  io_total result = io_total acc + length imgs
  /\ missingAlt result
     = missingAlt acc + length (filter (fun img => Js.truthy (alt img) = false) imgs)
  /\ length (io_issues result)
     = length (io_issues acc)
       + length (filter (fun img => Js.truthy (alt img) = false) imgs).
Proof.
  revert acc. induction imgs as [|img imgs IH]; intros acc; simpl; [lia|].
  destruct (Js.truthy (alt img)) eqn:Halt.
  - rewrite filter_cons_False by (rewrite Halt; done).
    destruct (IH {| io_total := S (io_total acc); missingAlt := missingAlt acc;
                    io_issues := io_issues acc |}) as (-> & -> & ->). simpl. lia.
  - rewrite filter_cons_True by done.
    match goal with |- context [foldl ?f ?a imgs] => destruct (IH a) as (-> & -> & ->) end.
    simpl. rewrite length_app. simpl. lia.
Qed.

(** X11. [analyzeImageOptimization] counts every image of every page, and
    the images without [alt] text are as many as the issues it lists, and
    never more than the images. *)
Theorem image_counts (pages : list PageRecord) :
  let report := analyzeImageOptimization pages in
  io_total report = sumOf (fun page => length (images page)) pages
  /\ missingAlt report = sumOf withoutAlt pages
  /\ length (io_issues report) = missingAlt report
  /\ missingAlt report <= io_total report.
Proof.
  unfold analyzeImageOptimization.
  assert (forall acc,
             let report :=
               foldl (fun acc page =>
                        foldl (fun images img =>
                                 if Js.truthy (alt img) then
                                   {| io_total := S (io_total images);
                                      missingAlt := missingAlt images;
                                      io_issues := io_issues images |}
                                 else
                                   {| io_total := S (io_total images);
                                      missingAlt := S (missingAlt images);
                                      io_issues := io_issues images ++
                                        [url page +:+ ": Image missing alt text ("
                                         +:+ default "undefined" (src img) +:+ ")"] |})
                              acc (images page))
                     acc pages in
             io_total report
             = io_total acc + sumOf (fun page => length (images page)) pages
             /\ missingAlt report = missingAlt acc + sumOf withoutAlt pages
             /\ length (io_issues report)
                = length (io_issues acc) + sumOf withoutAlt pages) as Hgen.
  { induction pages as [|page pages IH]; intros acc; unfold sumOf; simpl; [lia|].
    match goal with |- context [foldl ?f ?a pages] =>
      destruct (IH a) as (H1 & H2 & H3) end.
    simpl in H1, H2, H3. rewrite H1, H2, H3.
    destruct (imagesOfPage_spec (url page) (images page) acc) as (-> & -> & ->).
    unfold sumOf, withoutAlt. lia. }
  destruct (Hgen {| io_total := 0; missingAlt := 0; io_issues := [] |})
    as (H1 & H2 & H3).
  simpl in *. rewrite H1, H2, H3. split_and!; [done..|].
  clear. induction pages as [|page pages IH]; unfold sumOf in *; simpl; [done|].
  pose proof (length_filter (fun img => Js.truthy (alt img) = false) (images page)).
  unfold withoutAlt at 1. lia.
Qed.

Lemma analyzeHeadingStructure_from (pages : list PageRecord) (acc : HeadingStructure) :
  let step := fun structure page =>
    let h1 := headings page 1 in
    {| hs_issues := hs_issues structure ++
         (if length h1 =? 0 then [url page +:+ ": Missing H1"] else []) ++
         (if 1 <? length h1 then [url page +:+ ": Multiple H1 tags"] else []);
       hierarchy := hierarchy structure ++ [(url page, headings page)] |} in
  hs_issues (foldl step acc pages) = hs_issues acc ++ flat_map headingIssuesOf pages
  /\ map fst (hierarchy (foldl step acc pages))
     = map fst (hierarchy acc) ++ map url pages.
Proof.
  intros step. revert acc. induction pages as [|page pages IH]; intros acc.
  - simpl. by rewrite !app_nil_r.
  - change (foldl step acc (page :: pages)) with (foldl step (step acc page) pages).
    destruct (IH (step acc page)) as [-> ->].
    unfold step at 1 2. cbn [hs_issues hierarchy flat_map map].
    rewrite map_app. unfold headingIssuesOf at 2. cbn [map fst].
    by rewrite <- !app_assoc.
Qed.

Lemma missing_h1_of_page (page : PageRecord) (u : string) :
  u +:+ ": Missing H1" ∈ headingIssuesOf page
  <-> url page = u /\ headings page 1 = [].
Proof.
  unfold headingIssuesOf.
  destruct (headings page 1) as [|a [|b l]]; simpl;
    rewrite ?elem_of_cons, ?elem_of_nil;
    (split;
     [ intros H; repeat (destruct H as [H|H]); try done;
       symmetry in H; message_eq H; by split
     | intros [<- H]; try done; auto ]).
Qed.

Lemma multiple_h1_of_page (page : PageRecord) (u : string) :
  u +:+ ": Multiple H1 tags" ∈ headingIssuesOf page
  <-> url page = u /\ 1 < length (headings page 1).
Proof.
  unfold headingIssuesOf.
  destruct (headings page 1) as [|a [|b l]]; simpl;
    rewrite ?elem_of_cons, ?elem_of_nil;
    (split;
     [ intros H; repeat (destruct H as [H|H]); try done;
       symmetry in H; message_eq H; (split; [done|simpl; lia])
     | intros [<- H]; try lia; auto ]).
Qed.

(** X12. [analyzeHeadingStructure] reports a missing H1 for a URL exactly
    when a page of that URL has no H1, and multiple H1 tags exactly when one
    has more than one; a page never raises both, and the hierarchy lists
    the pages in order. *)
Theorem heading_issues (pages : list PageRecord) (u : string) :
  let report := analyzeHeadingStructure pages in
  (u +:+ ": Missing H1" ∈ hs_issues report
   <-> exists page, page ∈ pages /\ url page = u /\ headings page 1 = [])
  /\ (u +:+ ": Multiple H1 tags" ∈ hs_issues report
      <-> exists page, page ∈ pages /\ url page = u /\ 1 < length (headings page 1))
  /\ length (hs_issues report) <= length pages
  /\ map fst (hierarchy report) = map url pages.
Proof.
  intros report. subst report. unfold analyzeHeadingStructure.
  destruct (analyzeHeadingStructure_from pages {| hs_issues := []; hierarchy := [] |})
    as [Hi Hh].
  cbn [hs_issues hierarchy map app] in Hi, Hh. rewrite Hi, Hh. split_and!.
  - rewrite elem_of_flat_map. by setoid_rewrite missing_h1_of_page.
  - rewrite elem_of_flat_map. by setoid_rewrite multiple_h1_of_page.
  - clear. induction pages as [|page pages IH]; simpl; [done|].
    rewrite length_app. unfold headingIssuesOf at 1.
    destruct (headings page 1) as [|a [|b l]]; simpl; lia.
  - done.
Qed.

(** ** The readability score of [analyzeTechnicalSEO] *)

Lemma Qclamp_bounds (lo hi x : Q) : (lo <= hi)%Q -> (lo <= Qclamp lo hi x <= hi)%Q.
Proof.
  intros Hle. unfold Qclamp.
  destruct (Qle_bool hi x) eqn:H1.
  - destruct (Qle_bool hi lo) eqn:H2.
    + split; [apply Qle_refl|done].
    + split; [done|apply Qle_refl].
  - destruct (Qle_bool x lo) eqn:H2.
    + split; [apply Qle_refl|done].
    + split.
      * apply Qnot_lt_le. intros Hlt. apply Qlt_le_weak in Hlt.
        apply Qle_bool_iff in Hlt. congruence.
      * apply Qnot_lt_le. intros Hlt. apply Qlt_le_weak in Hlt.
        apply Qle_bool_iff in Hlt. congruence.
Qed.

Lemma pageReadability_bounds (page : PageRecord) : (0 <= pageReadability page <= 100)%Q.
Proof.
  unfold pageReadability.
  destruct ((0 <? length _) && (0 <? length _)); [|done].
  by apply Qclamp_bounds.
Qed.

Lemma totalScore_bounds (pages : list PageRecord) (start : Q) :
  (start <= foldl (fun total page => total + pageReadability page) start pages)%Q
  /\ (foldl (fun total page => total + pageReadability page) start pages
      <= start + 100 * ofNat (length pages))%Q.
Proof.
  revert start. induction pages as [|page pages IH]; intros start.
  - simpl. split; [apply Qle_refl|]. unfold ofNat. simpl. ring_simplify. apply Qle_refl.
  - cbn [foldl]. destruct (IH (start + pageReadability page)%Q) as [H1 H2].
    pose proof (pageReadability_bounds page) as [Hlo Hhi].
    split.
    + eapply Qle_trans; [|exact H1].
      rewrite <- (Qplus_0_r start) at 1. by apply Qplus_le_r.
    + eapply Qle_trans; [exact H2|].
      assert (ofNat (length (page :: pages)) == ofNat (length pages) + 1)%Q as ->.
      { unfold ofNat. cbn [length]. rewrite Nat2Z.inj_succ, <- Z.add_1_r.
        by rewrite inject_Z_plus. }
      apply Qle_trans with ((start + 100) + 100 * ofNat (length pages))%Q.
      * apply Qplus_le_compat; [|apply Qle_refl].
        apply Qplus_le_compat; [apply Qle_refl|exact Hhi].
      * apply Qle_lteq. right. ring.
Qed.

(** X13. The readability score of [analyzeTechnicalSEO] is an integer
    between 0 and 100, and is 75 when there is no page. *)
Theorem readability_score_range (pages : list PageRecord) :
  (0 <= calculateReadabilityScore pages <= 100)%Z
  /\ calculateReadabilityScore [] = 75%Z.
Proof.
  split; [|done]. unfold calculateReadabilityScore.
  destruct (Nat.ltb_spec 0 (length pages)) as [Hpos|]; [|lia].
  destruct (totalScore_bounds pages 0) as [Hlo Hhi].
  set (total := foldl (fun total page => (total + pageReadability page)%Q) 0%Q pages) in *.
  assert (0 < ofNat (length pages))%Q as Hn.
  { unfold ofNat. change 0%Q with (inject_Z 0). rewrite <- Zlt_Qlt. lia. }
  unfold Js.round. split.
  - change 0%Z with (Qfloor 0). apply Qfloor_resp_le.
    apply Qle_trans with (total / ofNat (length pages))%Q.
    + apply Qle_shift_div_l; [done|]. by rewrite Qmult_0_l.
    + rewrite <- (Qplus_0_r (total / _)) at 1. by apply Qplus_le_r.
  - change 100%Z with (Qfloor (100 + (1 # 2))). apply Qfloor_resp_le.
    apply Qplus_le_l. apply Qle_shift_div_r; [done|].
    rewrite Qplus_0_l in Hhi. exact Hhi.
Qed.

(** ** The browser-driven controller *)

Lemma isWordChar_lowerChar (c : ascii) :
  Controller.isWordChar (Js.lowerChar c) = Controller.isWordChar c.
Proof. destruct c as [[] [] [] [] [] [] [] []]; reflexivity. Qed.

(** Every match of [/\b\w+\b/g] is a non-empty run of word characters. *)
Lemma wordRuns_words (l : list ascii) :
  Forall (fun run => run <> [] /\ forallb Controller.isWordChar run = true)
         (Controller.wordRuns l).
Proof.
  induction l as [|c t IH]; [constructor|].
  cbn [Controller.wordRuns].
  destruct (Controller.isWordChar c) eqn:Hc; [|exact IH].
  destruct t as [|c2 t2].
  { constructor; [|constructor]. split; [done|]. simpl. by rewrite Hc. }
  destruct (Controller.isWordChar c2) eqn:Hc2.
  - destruct (Controller.wordRuns (c2 :: t2)) as [|run runs].
    + constructor; [|constructor]. split; [done|]. simpl. by rewrite Hc.
    + apply Forall_cons in IH as [[_ Hrun] Hruns].
      constructor; [|done]. split; [done|]. simpl. by rewrite Hc, Hrun.
  - constructor; [|exact IH]. split; [done|]. simpl. by rewrite Hc.
Qed.

Lemma forallb_map_lowerChar (l : list ascii) :
  forallb Controller.isWordChar (map Js.lowerChar l) = forallb Controller.isWordChar l.
Proof.
  induction l as [|c l IH]; [done|]. simpl. by rewrite isWordChar_lowerChar, IH.
Qed.

(** A keyword that is counted at least once is a non-empty run of word
    characters. *)
Lemma counted_keyword_is_word (text keyword : string) :
  0 < timesIn (Js.toLowerCase keyword)
        (map Js.str (Controller.wordRuns (Js.chars (Js.toLowerCase text)))) ->
  keyword <> "" /\ forallb Controller.isWordChar (Js.chars keyword) = true.
Proof.
  unfold timesIn. intros Hpos.
  destruct (filter _ _) as [|w ws] eqn:Hf; [simpl in Hpos; lia|].
  assert (w ∈ filter (fun x => x = Js.toLowerCase keyword)
            (map Js.str (Controller.wordRuns (Js.chars (Js.toLowerCase text))))) as Hin.
  { rewrite Hf. apply list_elem_of_here. }
  apply list_elem_of_filter in Hin as [-> Hin].
  apply list_elem_of_fmap in Hin as (run & Heq & Hrun).
  pose proof (wordRuns_words (Js.chars (Js.toLowerCase text))) as Hall.
  rewrite Forall_forall in Hall. destruct (Hall run Hrun) as [Hne Hword].
  apply (f_equal Js.chars) in Heq. rewrite chars_toLowerCase, chars_str in Heq.
  subst run. rewrite forallb_map_lowerChar in Hword. split; [|done].
  intros ->. by apply Hne.
Qed.

Lemma timesIn_le (w : string) (l : list string) : timesIn w l <= length l.
Proof. unfold timesIn. apply length_filter. Qed.

Lemma putDensity_lookup (words keywords : list string) (acc : gmap string Q)
  (keyword : string) :
  fold_left (Controller.putDensity words) keywords acc !! keyword
  = if bool_decide (keyword ∈ keywords /\ keyword <> "__proto__")
    then Some (percentage (timesIn (Js.toLowerCase keyword) words) (length words))
    else acc !! keyword.
Proof.
  revert acc. induction keywords as [|k keywords IH]; intros acc.
  - cbn [fold_left]. rewrite bool_decide_eq_false_2; [done|].
    intros [H _]. by apply elem_of_nil in H.
  - cbn [fold_left]. rewrite IH. unfold Controller.putDensity.
    case_bool_decide as H1; case_bool_decide as H2; try done.
    + exfalso. apply H2. destruct H1 as [H1 Hp]. split; [by right|done].
    + destruct (String.eqb_spec k "__proto__") as [->|Hk].
      * exfalso. apply H1. destruct H2 as [H2 Hp]. split; [|done].
        apply elem_of_cons in H2 as [->|H2]; [done|exact H2].
      * destruct H2 as [H2 Hp]. apply elem_of_cons in H2 as [->|H2].
        -- by rewrite lookup_insert_eq.
        -- exfalso. by apply H1.
    + destruct (String.eqb_spec k "__proto__") as [->|Hk]; [done|].
      rewrite lookup_insert_ne; [done|]. intros ->. apply H2. split; [by left|done].
Qed.

(** X14. The controller's [calculateKeywordDensity] records, for every
    keyword of the request but [__proto__], the share in percent of the
    words of the text that equal the keyword in lower case; the share
    lies between 0 and 100; and it is 0 for the empty keyword and for a
    keyword with a character outside letters, digits and underscore, such
    as a keyword of two words. *)
Theorem controller_keyword_density (text : string) (keywords : list string)
  (keyword : string) :
  let words := map Js.str (Controller.wordRuns (Js.chars (Js.toLowerCase text))) in
  let density := Controller.calculateKeywordDensity text keywords in
  (forall d, density !! keyword = Some d <->
     keyword ∈ keywords /\ keyword <> "__proto__"
     /\ d = percentage (timesIn (Js.toLowerCase keyword) words) (length words))
  /\ (forall d, density !! keyword = Some d -> (0 <= d <= 100)%Q)
  /\ (forall d, density !! keyword = Some d ->
        keyword = "" \/ forallb Controller.isWordChar (Js.chars keyword) = false ->
        (d == 0)%Q).
Proof.
  intros words density.
  assert (forall d, density !! keyword = Some d <->
     keyword ∈ keywords /\ keyword <> "__proto__"
     /\ d = percentage (timesIn (Js.toLowerCase keyword) words) (length words)) as Hspec.
  { intros d. unfold density, Controller.calculateKeywordDensity.
    fold words. rewrite putDensity_lookup, lookup_empty.
    case_bool_decide as H.
    - split.
      + intros [= <-]. by destruct H.
      + by intros (_ & _ & ->).
    - split; [done|]. intros (H1 & H2 & _). by destruct H. }
  split_and!; [exact Hspec| |].
  - intros d (_ & _ & ->)%Hspec. split.
    + apply percentage_nonneg.
    + apply percentage_le_100, timesIn_le.
  - intros d (_ & _ & ->)%Hspec Hbad.
    destruct (timesIn (Js.toLowerCase keyword) words) as [|n] eqn:Hn.
    + apply percentage_zero.
    + exfalso. destruct (counted_keyword_is_word text keyword) as [Hne Hword].
      { fold words. lia. }
      destruct Hbad as [->|Hbad]; [done|congruence].
Qed.

Lemma elem_of_take_l {A : Type} (n : nat) (l : list A) (x : A) : x ∈ take n l -> x ∈ l.
Proof. intros H. rewrite <- (take_drop n l). apply elem_of_app. by left. Qed.

(** X15. [getInternalLinks] returns at most [maxLinks] links, without
    repetition; each is the target of an anchor of the page, starts with
    the URL of the page and differs from the requested URL; and when no
    more than [maxLinks] anchors exist, every such target is returned. *)
Theorem internal_links_of_page (hrefs : list string) (pageUrl baseUrl : string)
  (maxLinks : nat) :
  let result := Controller.getInternalLinks hrefs pageUrl baseUrl maxLinks in
  length result <= maxLinks
  /\ NoDup result
  /\ (forall link, link ∈ result ->
        link ∈ hrefs /\ Js.startsWith link pageUrl = true /\ link <> baseUrl)
  /\ (length hrefs <= maxLinks ->
      forall link, link ∈ hrefs -> Js.startsWith link pageUrl = true ->
                   link <> baseUrl -> link ∈ result).
Proof.
  intros result. subst result. unfold Controller.getInternalLinks.
  set (links := filter (fun href => Js.startsWith href pageUrl = true) hrefs).
  set (uniqueLinks := filter (fun link => link <> baseUrl) (Js.setSpread links)).
  assert (NoDup uniqueLinks) as Hnd.
  { apply NoDup_filter, setSpread_NoDup. }
  assert (forall link, link ∈ uniqueLinks <->
            link ∈ hrefs /\ Js.startsWith link pageUrl = true /\ link <> baseUrl) as Hin.
  { intros link. unfold uniqueLinks, links.
    rewrite list_elem_of_filter, setSpread_elem, list_elem_of_filter. tauto. }
  split_and!.
  - rewrite length_take. lia.
  - rewrite <- (take_drop maxLinks uniqueLinks) in Hnd.
    by apply NoDup_app in Hnd as [Hnd _].
  - intros link Hl. by apply Hin, elem_of_take_l with maxLinks.
  - intros Hlen link H1 H2 H3.
    assert (length uniqueLinks <= length hrefs) as Hle.
    { apply submseteq_length, NoDup_submseteq; [done|].
      intros x Hx. by apply Hin in Hx as [Hx _]. }
    rewrite take_ge by lia. by apply Hin.
Qed.





(** ** The whole analysis *)

Lemma collectTypes_message (blocks : list JsonLd) (types : list string) (m : string) :
  collectTypes types blocks = Throws m ->
  m = "Cannot read properties of null (reading '@type')".
Proof.
  revert types. induction blocks as [|[|[t|]] blocks IH]; intros types; simpl.
  - done.
  - by intros [= <-].
  - apply IH.
  - apply IH.
Qed.

Lemma structuredDataFrom_message (pages : list PageRecord)
  (acc : StructuredDataSummary) (m : string) :
  structuredDataFrom acc pages = Throws m ->
  m = "Cannot read properties of null (reading '@type')".
Proof.
  revert acc. induction pages as [|page pages IH]; intros acc; simpl; [done|].
  destruct (0 <? length (structuredData page)); [|apply IH].
  destruct (collectTypes (types acc) (structuredData page)) as [ts|m'|] eqn:Hc; simpl.
  - apply IH.
  - intros [= <-]. by eapply collectTypes_message.
  - done.
Qed.

Lemma tallyPages_throws (keyword : string) (pages : list PageRecord) (tally : Tally)
  (m : string) :
  tallyPages keyword tally pages = Throws m ->
  RegExp.compile (Js.toLowerCase keyword) = Throws m.
Proof.
  revert tally. induction pages as [|page pages IH]; intros tally; simpl; [done|].
  unfold tallyPage.
  destruct (RegExp.compile (Js.toLowerCase keyword)) as [re|m'|]; simpl.
  - apply IH.
  - by intros [= <-].
  - done.
Qed.

Lemma densityFrom_throws (pages : list PageRecord) (keywords : list string)
  (density : gmap string KeywordReport) (m : string) :
  densityFrom density pages keywords = Throws m ->
  exists keyword,
    keyword ∈ keywords /\ RegExp.compile (Js.toLowerCase keyword) = Throws m.
Proof.
  revert density. induction keywords as [|k keywords IH]; intros density; simpl; [done|].
  unfold keywordReport.
  destruct (tallyPages k _ pages) as [tally|m'|] eqn:Ht; simpl.
  - intros (keyword & Hin & Hc)%IH. exists keyword. split; [by right|done].
  - intros [= <-]. exists k. split; [by left|]. by eapply tallyPages_throws.
  - done.
Qed.

(** What [analyzePages] returns, and the two causes of its failure. *)
Lemma analyzePages_cases (pages : list PageRecord) (keywords : list string) :
  match analyzePages pages keywords with
  | Returns a =>
      an_pages a = pages
      /\ metaTags a = analyzeMetaTags pages
      /\ analyzeKeywordDensity pages keywords = Returns (keywordDensity a)
      /\ analyzeStructuredData pages = Returns (an_structuredData a)
      /\ ts_structuredData (technical a) = an_structuredData a
      /\ contentQuality a = analyzeContentQuality pages
  | Throws m =>
      analyzeKeywordDensity pages keywords = Throws m
      \/ analyzeStructuredData pages = Throws m
  | Unmodelled => analyzeKeywordDensity pages keywords = Unmodelled
  end.
Proof.
  unfold analyzePages, analyzeTechnicalSEO.
  destruct (analyzeKeywordDensity pages keywords) as [density|m|]; simpl; [|by left|done].
  pose proof (structuredDataFrom_spec pages {| pagesWithData := 0; types := [] |}) as Hs.
  unfold analyzeStructuredData.
  destruct (structuredDataFrom _ pages) as [summary|m|]; simpl; [done|by right|done].
Qed.

Lemma omap_id_elem (l : list (option JsonLd)) (b : JsonLd) :
  b ∈ omap id l <-> Some b ∈ l.
Proof.
  rewrite list_elem_of_omap. split.
  - by intros ([x|] & Hin & [= <-]).
  - intros Hin. by exists (Some b).
Qed.

(** X17. For keywords that are strings without any syntax character of
    the pattern language, [analyzeWebsite], once the crawl has ended,
    throws exactly when a JSON-LD block of a crawled page is [null] or
    the constructor of the language model client throws.  The message is
    [Failed to analyze website: ] followed by the message of
    [analyzeStructuredData] in the first case, which prevails, and by the
    message of the constructor in the second.  Neither the crawl nor the
    call of the language model makes it throw. *)
Theorem analysis_failure_causes
  (resolveUrl : string -> string -> option string)
  (web : nat -> string -> option Document) (maxPages : nat)
  (clientError : option string) (complete : string -> string + string)
  (fuel : nat) (u : string) (keywords : list string)
  (outcome : Outcome AnalysisResult) :
  Forall (fun keyword => isLiteral keyword = true) keywords ->
  analyzeWebsite resolveUrl web maxPages clientError complete fuel u keywords
  = Some outcome ->
  exists pages,
    crawlWebsite resolveUrl web maxPages fuel u = Some pages
    /\ match outcome with
       | Throws message =>
           exists cause,
             message = "Failed to analyze website: " +:+ cause
             /\ ((analyzeStructuredData pages = Throws cause
                  /\ exists page, page ∈ pages /\ JsonNull ∈ structuredData page)
                 \/ ((forall page, page ∈ pages -> JsonNull ∉ structuredData page)
                     /\ clientError = Some cause))
       | Returns r =>
           (forall page, page ∈ pages -> JsonNull ∉ structuredData page)
           /\ clientError = None
       | Unmodelled => False
       end.
Proof.
  intros Hlit. unfold analyzeWebsite.
  destruct (crawlWebsite resolveUrl web maxPages fuel u) as [pages|]; [|done].
  intros [= <-]. exists pages. split; [done|].
  destruct (analyzeKeywordDensity_literal pages keywords Hlit) as [density Hk].
  pose proof (analyzePages_cases pages keywords) as Ha.
  pose proof (structuredDataFrom_spec pages {| pagesWithData := 0; types := [] |}) as Hs.
  destruct (analyzePages pages keywords) as [a|m|]; simpl.
  - destruct Ha as (_ & _ & _ & Hsd & _).
    unfold analyzeStructuredData in Hsd. rewrite Hsd in Hs. destruct Hs as [Hnull _].
    unfold generateAiInsights, initializeOpenAI.
    destruct clientError as [m|]; simpl.
    + exists m. split; [done|]. by right.
    + by destruct (complete _).
  - destruct Ha as [Ha|Ha]; [congruence|].
    exists m. split; [done|]. left. split; [done|].
    unfold analyzeStructuredData in Ha. by rewrite Ha in Hs.
  - congruence.
Qed.

Lemma analysis_failure_causes_witness :
  exists pages,
    crawlWebsite Site.absolute Site.web 5 10 "http://a/" = Some pages
    /\ exists cause,
         "Failed to analyze website: no key" = "Failed to analyze website: " +:+ cause
         /\ ((analyzeStructuredData pages = Throws cause
              /\ exists page, page ∈ pages /\ JsonNull ∈ structuredData page)
             \/ ((forall page, page ∈ pages -> JsonNull ∉ structuredData page)
                 /\ Some "no key" = Some cause)).
Proof.
  apply (analysis_failure_causes Site.absolute Site.web 5 (Some "no key")
           (fun _ => inl "{}") 10 "http://a/" ["home"]
           (Throws "Failed to analyze website: no key")).
  - by repeat constructor.
  - vm_compute. reflexivity.
Defined.

(** X18. For keywords that are strings without any syntax character of
    the pattern language: when [analyzeWebsite] returns, the client of
    the language model could be built; the result carries the URL and the
    keywords of the call; the pages of the analysis are those of the
    crawl, at most [maxPages], and [pagesAnalyzed] is their number; none
    of their JSON-LD blocks is [null]; the keyword density has an entry
    for every keyword but ["__proto__"], and for nothing else; the
    structured data summary of the technical analysis is that of the
    analysis; and the insights are the answer of the language model to
    the first 8000 characters of the contents joined by blank lines, or
    the error of that call. *)
Theorem analysis_result_shape
  (resolveUrl : string -> string -> option string)
  (web : nat -> string -> option Document) (maxPages : nat)
  (clientError : option string) (complete : string -> string + string)
  (fuel : nat) (u : string) (keywords : list string) (r : AnalysisResult) :
  Forall (fun keyword => isLiteral keyword = true) keywords ->
  analyzeWebsite resolveUrl web maxPages clientError complete fuel u keywords
  = Some (Returns r) ->
  clientError = None
  /\ ar_url r = u /\ ar_keywords r = keywords
  /\ crawlWebsite resolveUrl web maxPages fuel u = Some (an_pages (analysis r))
  /\ pagesAnalyzed r = length (an_pages (analysis r))
  /\ pagesAnalyzed r <= maxPages
  /\ (forall page, page ∈ an_pages (analysis r) -> JsonNull ∉ structuredData page)
  /\ (forall keyword,
        is_Some (keywordDensity (analysis r) !! keyword)
        <-> keyword ∈ keywords /\ keyword <> "__proto__")
  /\ ts_structuredData (technical (analysis r)) = an_structuredData (analysis r)
  /\ aiInsights r
     = match complete (Js.substring0 8000
                         (Js.join (newlines)
                                  (map content (an_pages (analysis r))))) with
       | inl json => InsightsJson json
       | inr details => InsightsError details
       end.
Proof.
  intros _.
  unfold analyzeWebsite, crawlWebsite.
  destruct (crawlRun resolveUrl web maxPages fuel u) as [st|] eqn:Hrun; [|done].
  cbn [fmap option_fmap option_map].
  pose proof (analyzePages_cases (pages st) keywords) as Ha.
  destruct (analyzePages (pages st) keywords) as [a|m|]; simpl; [|done..].
  destruct Ha as (Hp & _ & Hk & Hs & Hts & _).
  unfold generateAiInsights, initializeOpenAI.
  destruct clientError as [m|]; simpl; [done|].
  assert (length (pages st) <= maxPages) as Hcap.
  { by destruct (Inv_run resolveUrl web maxPages u fuel st Hrun) as [[Hcap _ _ _ _ _ _ _] _]. }
  assert (forall page, page ∈ pages st -> JsonNull ∉ structuredData page) as Hnull.
  { pose proof (structuredDataFrom_spec (pages st) {| pagesWithData := 0; types := [] |})
      as Hspec.
    unfold analyzeStructuredData in Hs. rewrite Hs in Hspec. by destruct Hspec as [H _]. }
  assert (forall keyword,
            is_Some (keywordDensity a !! keyword)
            <-> keyword ∈ keywords /\ keyword <> "__proto__") as Hkeys.
  { intros keyword. unfold analyzeKeywordDensity in Hk.
    destruct (densityFrom_spec _ _ _ _ keyword Hk) as [H1 H2]. split.
    - intros Hsome. destruct (decide (keyword ∈ keywords)) as [Hin|Hout].
      + split; [done|]. intros ->.
        rewrite H2, lookup_empty in Hsome by (by right). by destruct Hsome.
      + rewrite H2, lookup_empty in Hsome by (by left). by destruct Hsome.
    - intros [Hin Hproto]. destruct (H1 Hin Hproto) as (report & -> & _). by eexists. }
  destruct (complete _) as [json|details] eqn:Hc; intros [= <-]; simpl;
    rewrite Hc, Hp; by split_and!.
Qed.

Lemma analysis_result_shape_witness :
  exists r,
    analyzeWebsite Site.absolute Site.web 5 None (fun _ => inl "{}") 10 "http://a/"
                   ["home"; "__proto__"]
    = Some (Returns r)
    /\ pagesAnalyzed r <= 5
    /\ is_Some (keywordDensity (analysis r) !! "home")
    /\ keywordDensity (analysis r) !! "__proto__" = None
    /\ aiInsights r = InsightsJson "{}".
Proof.
  destruct (analyzeWebsite Site.absolute Site.web 5 None (fun _ => inl "{}") 10
              "http://a/" ["home"; "__proto__"]) as [[r| |]|] eqn:Hrun;
    [|vm_compute in Hrun; discriminate Hrun..].
  exists r. split; [done|].
  destruct (analysis_result_shape Site.absolute Site.web 5 None (fun _ => inl "{}")
              10 "http://a/" ["home"; "__proto__"] r)
    as (_ & _ & _ & _ & _ & Hcap & _ & Hkeys & _ & Hai);
    [by repeat constructor|exact Hrun|].
  split_and!; [exact Hcap| | |exact Hai].
  - apply Hkeys. split; [by left|discriminate].
  - destruct (keywordDensity (analysis r) !! "__proto__") eqn:Hl; [|done].
    exfalso. assert (is_Some (keywordDensity (analysis r) !! "__proto__")) as Hs
      by (rewrite Hl; by eexists).
    apply Hkeys in Hs as [_ Hne]. by apply Hne.
Defined.

(** X19. With keywords free of pattern syntax, a language model client
    that can be built, and a site none of whose documents has a [null]
    JSON-LD block, [analyzeWebsite] returns a result: the same one for
    every bound on the iterations of the crawl from some bound on. *)
Theorem analysis_completes
  (resolveUrl : string -> string -> option string)
  (web : nat -> string -> option Document) (maxPages : nat)
  (complete : string -> string + string)
  (u : string) (keywords : list string) :
  Forall (fun keyword => isLiteral keyword = true) keywords ->
  (forall n v d, web n v = Some d -> Some JsonNull ∉ doc_jsonld d) ->
  exists fuel r,
    forall fuel', fuel <= fuel' ->
      analyzeWebsite resolveUrl web maxPages None complete fuel' u keywords
      = Some (Returns r).
Proof.
  intros Hlit Hweb.
  destruct (crawlLoop_terminates resolveUrl web maxPages
              (maxPages - length (pages (initialState u)))
              (length (toVisit (initialState u))) (initialState u))
    as (fuel & st & Hloop); [done..|].
  assert (forall page, page ∈ pages st -> JsonNull ∉ structuredData page) as Hnull.
  { intros page Hin.
    destruct (crawl_pages_crawled resolveUrl web maxPages fuel u st Hloop page Hin)
      as [n Hcp].
    unfold crawlPage in Hcp. destruct (web n (url page)) as [d|] eqn:Hd; [|done].
    injection Hcp as <-. cbn [structuredData]. unfold extractStructuredData.
    rewrite omap_id_elem. by eapply Hweb. }
  destruct (analyzeKeywordDensity_literal (pages st) keywords Hlit) as [density Hk].
  pose proof (analyzePages_cases (pages st) keywords) as Ha.
  pose proof (structuredDataFrom_spec (pages st) {| pagesWithData := 0; types := [] |})
    as Hspec.
  destruct (analyzePages (pages st) keywords) as [a|m|] eqn:Hpages.
  - exists fuel.
    exists {| ar_url := u;
              ar_keywords := keywords;
              pagesAnalyzed := length (pages st);
              analysis := a;
              aiInsights :=
                match complete (Js.substring0 8000
                                  (Js.join newlines (map content (an_pages a)))) with
                | inl json => InsightsJson json
                | inr details => InsightsError details
                end |}.
    intros fuel' Hle.
    assert (crawlRun resolveUrl web maxPages fuel' u = Some st) as Hrun
      by (by eapply crawlLoop_mono).
    unfold analyzeWebsite, crawlWebsite. rewrite Hrun.
    cbn [fmap option_fmap option_map]. rewrite Hpages.
    unfold generateAiInsights, initializeOpenAI. simpl.
    by destruct (complete _).
  - exfalso. destruct Ha as [Ha|Ha]; [congruence|].
    unfold analyzeStructuredData in Ha. rewrite Ha in Hspec.
    destruct Hspec as (page & Hin & Hn). by apply (Hnull page Hin).
  - congruence.
Qed.

Lemma analysis_completes_witness :
  exists fuel r,
    forall fuel', fuel <= fuel' ->
      analyzeWebsite Site.absolute Site.web 5 None (fun _ => inl "{}") fuel'
                     "http://a/" ["home"; "page"]
      = Some (Returns r).
Proof.
  apply (analysis_completes Site.absolute Site.web 5 (fun _ => inl "{}")
           "http://a/" ["home"; "page"]).
  - repeat constructor.
  - intros n v d. unfold Site.web.
    destruct (String.eqb v "http://a/"); [intros [= <-]; simpl; apply not_elem_of_nil|].
    destruct (String.eqb v "http://a/p"); [intros [= <-]; simpl; apply not_elem_of_nil|].
    discriminate.
Defined.

(** ** Syllables of a text with whitespace at its ends *)










(** ** Content quality *)

Lemma sumOf_bounded {A : Type} (f : A -> nat) (l : list A) (bound : nat) :
  (forall x, x ∈ l -> f x <= bound) -> sumOf f l <= bound * length l.
Proof.
  induction l as [|x l IH]; intros Hf; [unfold sumOf; simpl; lia|].
  unfold sumOf in *. cbn [foldr length].
  pose proof (Hf x (list_elem_of_here _ _)).
  assert (foldr (fun x total => f x + total) 0 l <= bound * length l) as Hl.
  { apply IH. intros y Hy. apply Hf. by right. }
  lia.
Qed.

Lemma Qfloor_Z_half (z : Z) : Qfloor (inject_Z z + (1 # 2)) = z.
Proof.
  unfold Qfloor, Qplus, inject_Z. cbn [Qnum Qden].
  symmetry. apply (Z.div_unique_pos _ _ z 1); lia.
Qed.

(** X21. [analyzeContentQuality] has no average word count (the quotient
    is [NaN]) exactly when there is no page; otherwise the average is an
    integer between 0 and any bound on the word counts of the pages.  The
    readability score it lists is 75 for every page, in the order of the
    pages, whatever their content. *)
Theorem content_quality (pages : list PageRecord) (bound : nat) :
  let quality := analyzeContentQuality pages in
  (averageWordCount quality = None <-> pages = [])
  /\ (forall average,
        averageWordCount quality = Some average ->
        (forall page, page ∈ pages -> wordCount page <= bound) ->
        (0 <= average <= Z.of_nat bound)%Z)
  /\ map fst (readabilityScores quality) = map url pages
  /\ (forall u score, (u, score) ∈ readabilityScores quality -> score = 75).
Proof.
  intros quality. subst quality. unfold analyzeContentQuality.
  cbn [averageWordCount readabilityScores]. split_and!.
  - destruct pages as [|page pages]; [done|]. by cbn [length Nat.ltb Nat.leb].
  - intros average Havg Hbound.
    destruct (Nat.ltb_spec 0 (length pages)) as [Hpos|]; [|done].
    injection Havg as <-. rewrite foldl_sum. cbn [Nat.add].
    pose proof (sumOf_bounded wordCount pages bound Hbound) as Hsum.
    set (total := sumOf wordCount pages) in *.
    assert (0 < ofNat (length pages))%Q as Hn.
    { unfold ofNat. change 0%Q with (inject_Z 0). rewrite <- Zlt_Qlt. lia. }
    unfold Js.round. split.
    + change 0%Z with (Qfloor 0). apply Qfloor_resp_le.
      apply Qle_trans with (ofNat total / ofNat (length pages))%Q.
      * apply Qle_shift_div_l; [done|]. rewrite Qmult_0_l.
        unfold ofNat. change 0%Q with (inject_Z 0). rewrite <- Zle_Qle. lia.
      * rewrite <- (Qplus_0_r (ofNat total / _)) at 1. by apply Qplus_le_r.
    + assert (Z.of_nat bound = Qfloor (inject_Z (Z.of_nat bound) + (1 # 2))) as ->.
      { symmetry. apply Qfloor_Z_half. }
      apply Qfloor_resp_le, Qplus_le_l.
      apply Qle_shift_div_r; [done|].
      unfold ofNat. rewrite <- inject_Z_mult, <- Zle_Qle. lia.
  - rewrite map_map. simpl. done.
  - intros u score (page & [= -> ->] & _)%list_elem_of_fmap. done.
Qed.
